(** * github-blog-sync: the sync orchestrator and the settings form

    A shallow embedding of [src/main.ts].  The plugin is glue around three
    external collaborators: the version-control library ([git.statusMatrix],
    [git.add], [git.remove], [git.commit], [git.push]), Node ([path.join],
    [os.hostname], [Date]) and the editor host ([Notice], [Setting]).
    Their answers during one invocation are collected in a [host] record;
    what [SyncBlog] does with them is an event trace (the calls it issues,
    their settlements, the notifications it shows) and a returned value. *)

From Stdlib Require Import String Ascii List ZArith Lia Bool Permutation Sorted.
From ExtLib Require Import Structures.Monad.
Import ListNotations.
Import MonadNotation.
Local Open Scope string_scope.
Local Open Scope list_scope.
Local Open Scope monad_scope.

(** ** Data model *)

(** [interface GithubBlogSyncPluginSettings] (main.ts, lines 14-21). *)
Record GithubBlogSyncPluginSettings := {
  githubUsername : string;
  githubRepoUrl : string;
  githubPersonalAccessToken : string;
  gitDirLocation : string;
  nameOfCommit : string;
  emailOfCommit : string
}.

(** [DEFAULT_SETTINGS] (lines 23-30). *)
Definition DEFAULT_SETTINGS : GithubBlogSyncPluginSettings :=
  {| githubUsername := "";
     githubRepoUrl := "";
     githubPersonalAccessToken := "";
     gitDirLocation := "";
     nameOfCommit := "";
     emailOfCommit := "" |}.

(** A caught value [e].  The library rejects with [Error] objects; the
    template literals of lines 68, 86 and 99 render them with
    [Error.prototype.toString]. *)
Record js_error := {
  err_name : string;
  err_message : string
}.

Definition string_is_empty (s : string) : bool :=
  match s with
  | EmptyString => true
  | String _ _ => false
  end.

(** [`${e}`] for an [Error]: the name, the message, or [name: message]. *)
Definition error_toString (e : js_error) : string :=
  if string_is_empty (err_name e) then err_message e
  else if string_is_empty (err_message e) then err_name e
  else (err_name e ++ ": " ++ err_message e)%string.

(** One row of the status matrix: [[filepath, head, workdir, stage]].
    The callbacks of lines 49 and 59 destructure positions 0 and 2. *)
Record status_row := {
  row_filepath : string;
  row_head : Z;
  row_workdir : Z;
  row_stage : Z
}.

(** [author: { name, email }] (lines 80-83). *)
Record commit_author := {
  author_name : string;
  author_email : string
}.

(** The argument object of [git.commit] (lines 75-84), [fs] left out. *)
Record commit_args := {
  commit_dir : string;
  commit_message : string;
  commit_ref : string;
  commit_author_of : commit_author
}.

(** What an [onAuth] callback returns: both fields are optional in the
    library's [GitAuth]. *)
Record GitAuth := {
  auth_username : option string;
  auth_password : option string
}.

(** The argument object of [git.push] (lines 91-97), [fs] and [http] left
    out.  [ref] is an optional parameter of the library. *)
Record push_args := {
  push_dir : string;
  push_url : string;
  push_ref : option string;
  push_onAuth : GitAuth
}.

(** The calls into the version-control library. *)
Inductive call :=
| StatusMatrix (dir : string)
| Add (dir filepath : string)
| Remove (dir filepath : string)
| Commit (args : commit_args)
| Push (args : push_args).

(** What an invocation does, in order: a [Notice] shown (with its optional
    duration in milliseconds), a library call started, a library promise
    settled (fulfilled on [None], rejected with [Some e]). *)
Inductive event :=
| Notice (message : string) (duration : option Z)
| Issue (c : call)
| Settle (c : call) (rejection : option js_error).

(** How a promise started by [git.add] or [git.remove] ends: when it
    settles (a tick of the event loop) and with what. *)
Record settlement := {
  settled_at : nat;
  rejection_of : option js_error
}.

(** The collaborators' answers during one invocation. *)
Record host := {
  getBasePath : string;
  os_hostname : string;
  (** [new Date()] of line 78 converted to a string *)
  date_toString : string;
  path_join : string -> string -> string;
  git_statusMatrix : string -> js_error + list status_row;
  git_add : string -> string -> settlement;
  git_remove : string -> string -> settlement;
  git_commit : commit_args -> option js_error;
  git_push : push_args -> option js_error;
  (** the branch [HEAD] points to in the working directory *)
  checked_out_branch : string
}.

(** ** JavaScript primitives used by the source *)

(** [s.startsWith(p)]. *)
Fixpoint startsWith (p s : string) : bool :=
  match p, s with
  | EmptyString, _ => true
  | String a p', String b s' => Ascii.eqb a b && startsWith p' s'
  | String _ _, EmptyString => false
  end.

(** [s.includes(p)]: [p] starts at some position of [s]. *)
Fixpoint includes (s p : string) : bool :=
  startsWith p s ||
  match s with
  | EmptyString => false
  | String _ s' => includes s' p
  end.

(** Truthiness of a number, as the conditional of lines 53 and 63 uses it. *)
Definition truthy (n : Z) : bool := negb (n =? 0)%Z.

(** ** The monad of an async function body

    A computation leaves a trace and either throws or yields a value. *)
Definition js (A : Type) : Type := (list event * (js_error + A))%type.

Definition js_ret {A} (a : A) : js A := ([], inr a).

Definition js_bind {A B} (m : js A) (f : A -> js B) : js B :=
  match m with
  | (t, inl e) => (t, inl e)
  | (t, inr a) => (t ++ fst (f a), snd (f a))
  end.

#[global] Instance Monad_js : Monad js :=
  {| ret := @js_ret; bind := @js_bind |}.

(** [try { body }] as a value: the caught error or the body's result. *)
Definition try {A} (body : js A) : js (js_error + A) :=
  (fst body, inr (snd body)).

(** [new Notice(message, duration)]. *)
Definition new_Notice (message : string) (duration : option Z) : js unit :=
  ([Notice message duration], inr tt).

(** [await] of a single library call whose promise rejects or not. *)
Definition await (c : call) (r : option js_error) : js unit :=
  ([Issue c; Settle c r],
   match r with
   | Some e => inl e
   | None => inr tt
   end).

(** [await git.statusMatrix({ fs, dir })]. *)
Definition await_statusMatrix (h : host) (dir : string) : js (list status_row) :=
  match git_statusMatrix h dir with
  | inl e => ([Issue (StatusMatrix dir); Settle (StatusMatrix dir) (Some e)], inl e)
  | inr status => ([Issue (StatusMatrix dir); Settle (StatusMatrix dir) None], inr status)
  end.

(** A promise in flight: the call that started it and how it will end. *)
Definition pending : Type := (call * settlement)%type.

(** The callback of [status.map] (lines 49-54 and 59-64): [undefined] for a
    noise path, otherwise the promise of [git.add] or of [git.remove]. *)
Definition stage_callback (h : host) (dir sub : string) (r : status_row)
  : option pending :=
  if includes (row_filepath r) ".DS_Store" then None
  else
    let filepath := path_join h sub (row_filepath r) in
    if truthy (row_workdir r)
    then Some (Add dir filepath, git_add h dir filepath)
    else Some (Remove dir filepath, git_remove h dir filepath).

(** The promises among the elements of an array. *)
Fixpoint promises_of (l : list (option pending)) : list pending :=
  match l with
  | [] => []
  | Some p :: l' => p :: promises_of l'
  | None :: l' => promises_of l'
  end.

(** [status.map(callback)]: the callback runs on every row, in order, before
    anything is awaited; each promise it returns is a call already started. *)
Definition status_map (f : status_row -> option pending) (status : list status_row)
  : js (list (option pending)) :=
  (map (fun p => Issue (fst p)) (promises_of (map f status)), inr (map f status)).

(** Promises ordered by the tick at which they settle; promises settling at
    the same tick keep the order in which they were started. *)
Fixpoint insert_by_tick (p : pending) (l : list pending) : list pending :=
  match l with
  | [] => [p]
  | q :: l' =>
      if (settled_at (snd p) <=? settled_at (snd q))%nat
      then p :: q :: l'
      else q :: insert_by_tick p l'
  end.

Fixpoint settle_order (l : list pending) : list pending :=
  match l with
  | [] => []
  | p :: l' => insert_by_tick p (settle_order l')
  end.

(** Settlements observed by [Promise.all], in settle order: it fulfils once
    every promise has fulfilled and rejects at the first rejection, whose
    error it passes on; promises still pending then are not awaited. *)
Fixpoint settle_until_rejection (l : list pending) : js unit :=
  match l with
  | [] => ([], inr tt)
  | (c, s) :: l' =>
      match rejection_of s with
      | Some e => ([Settle c (Some e)], inl e)
      | None =>
          (Settle c None :: fst (settle_until_rejection l'),
           snd (settle_until_rejection l'))
      end
  end.

(** [await Promise.all(array)]; elements that are not promises count as
    fulfilled. *)
Definition Promise_all (l : list (option pending)) : js unit :=
  settle_until_rejection (settle_order (promises_of l)).

(** ** The sync orchestrator *)

(** [dir] of line 44. *)
Definition sync_dir (h : host) (settings : GithubBlogSyncPluginSettings) : string :=
  path_join h (getBasePath h) (gitDirLocation settings).

(** Lines 47-56 (for ["public"]) and 57-66 (for ["content"]). *)
Definition stage (h : host) (dir sub : string) : js unit :=
  status <- await_statusMatrix h (path_join h dir sub) ;;
  promises <- status_map (stage_callback h dir sub) status ;;
  Promise_all promises.

(** The body of the first [try] (lines 47-66). *)
Definition staging (h : host) (dir : string) : js unit :=
  stage h dir "public" ;;
  stage h dir "content".

(** The argument of [git.commit] built at lines 75-84. *)
Definition commit_call (h : host) (dir NAME EMAIL : string) : commit_args :=
  {| commit_dir := dir;
     commit_message := (os_hostname h ++ " " ++ date_toString h)%string;
     commit_ref := "main";
     commit_author_of := {| author_name := NAME; author_email := EMAIL |} |}.

(** The argument of [git.push] built at lines 91-97. *)
Definition push_call (dir REPO PAT : string) : push_args :=
  {| push_dir := dir;
     push_url := ("https://" ++ REPO)%string;
     push_ref := None;
     push_onAuth := {| auth_username := Some PAT; auth_password := None |} |}.

(** [async SyncBlog()] (lines 35-104).  The value is what the function
    returns: the caught error, or [None] for [undefined]. *)
Definition SyncBlog (h : host) (settings : GithubBlogSyncPluginSettings)
  : js (option js_error) :=
  new_Notice "Will push to repository" None ;;
  let NAME := nameOfCommit settings in
  let EMAIL := emailOfCommit settings in
  let PAT := githubPersonalAccessToken settings in
  let REPO := githubRepoUrl settings in
  let DIR := gitDirLocation settings in
  let dir := path_join h (getBasePath h) DIR in
  staged <- try (staging h dir) ;;
  match staged with
  | inl e =>
      new_Notice ("Couldn't add updated files. Problem: " ++ error_toString e)%string
                 (Some 10000%Z) ;;
      ret (Some e)
  | inr _ =>
      committed <- try (await (Commit (commit_call h dir NAME EMAIL))
                              (git_commit h (commit_call h dir NAME EMAIL))) ;;
      match committed with
      | inl e =>
          new_Notice ("Couldn't commit changes to the branch. Problem: "
                      ++ error_toString e)%string (Some 10000%Z) ;;
          ret (Some e)
      | inr _ =>
          pushed <- try (await (Push (push_call dir REPO PAT))
                               (git_push h (push_call dir REPO PAT))) ;;
          match pushed with
          | inl e =>
              new_Notice ("Couldn't push changes to the repository. Problem: "
                          ++ error_toString e)%string (Some 10000%Z) ;;
              ret (Some e)
          | inr _ =>
              new_Notice ("GitHub Blog Sync: Pushed to " ++ REPO)%string None ;;
              ret None
          end
      end
  end.

(** ** The settings form *)

(** What [addText] builds: a text input.  The host creates it with input
    type ["text"]; the source sets its placeholder and value and never
    touches the type. *)
Record TextComponent := {
  inputEl_type : string;
  text_placeholder : string;
  text_value : string
}.

(** One [new Setting(containerEl)] with its name, description and input. *)
Record Setting := {
  setting_name : string;
  setting_desc : string;
  setting_text : TextComponent
}.

(** [.addText(text => text.setPlaceholder(p).setValue(v))]. *)
Definition addText (p v : string) : TextComponent :=
  {| inputEl_type := "text"; text_placeholder := p; text_value := v |}.

(** [GithubBlogSyncSettingTab.display] (lines 148-218): the container after
    [empty()] and the six settings, in order. *)
Definition display (settings : GithubBlogSyncPluginSettings) : list Setting :=
  [ {| setting_name := "GitHub Username";
       setting_desc := "";
       setting_text := addText "" (githubUsername settings) |};
    {| setting_name := "GitHub Repository Url";
       setting_desc := "In the format github.com/username/repository";
       setting_text := addText "github.com/username/repository"
                               (githubRepoUrl settings) |};
    {| setting_name := "GitHub Personal Access Token";
       setting_desc := "In the format ghp_XXXXXXXXXXXXXXXXXXXXXXXX";
       setting_text := addText "ghp_XXXXXXXXXXXXXXXXXXXXXXXX"
                               (githubPersonalAccessToken settings) |};
    {| setting_name := "GitHub Folder Location";
       setting_desc := "";
       setting_text := addText "/path/to/folder" (gitDirLocation settings) |};
    {| setting_name := "GitHub Commit Name";
       setting_desc := "";
       setting_text := addText "" (nameOfCommit settings) |};
    {| setting_name := "GitHub Commit Email";
       setting_desc := "";
       setting_text := addText "" (emailOfCommit settings) |} ].

(** What the user reads in an input: the value itself, or one bullet per
    character when the input type is ["password"]. *)
Fixpoint bullets (s : string) : string :=
  match s with
  | EmptyString => EmptyString
  | String _ s' => String "*"%char (bullets s')
  end.

Definition rendered_text (t : TextComponent) : string :=
  if String.eqb (inputEl_type t) "password" then bullets (text_value t)
  else text_value t.

(** ** Conventions of the version-control library

    The source leaves these to the library; they give the claims about
    branches, credentials and unchanged files their meaning. *)

(** The branch [git.push] pushes: [ref], and the checked out branch when
    [ref] is not given. *)
Definition pushed_branch (h : host) (a : push_args) : string :=
  match push_ref a with
  | Some r => r
  | None => checked_out_branch h
  end.

(** The ref that [git.commit] moves to the commit it has created: [ref]
    as it is given, which the library takes for a fully expanded name and
    writes under the git directory. *)
Definition committed_ref (a : commit_args) : string := commit_ref a.

(** The fully expanded name of a branch. *)
Definition branch_ref (name : string) : string := ("refs/heads/" ++ name)%string.

(** The user and password of the basic-auth header the library computes from
    an [onAuth] answer: a missing field counts as the empty string. *)
Definition basic_auth (a : GitAuth) : string * string :=
  (match auth_username a with Some u => u | None => "" end,
   match auth_password a with Some p => p | None => "" end).

(** A row [[f, 1, 1, 1]]: the file is in [HEAD], the working tree file is
    identical to it and so is the index entry. *)
Definition unmodified (r : status_row) : bool :=
  (row_head r =? 1)%Z && (row_workdir r =? 1)%Z && (row_stage r =? 1)%Z.

(** ** Reading a trace *)

Definition issued (t : list event) : list call :=
  flat_map (fun ev => match ev with Issue c => [c] | _ => [] end) t.

Definition notices (t : list event) : list (string * option Z) :=
  flat_map (fun ev => match ev with Notice m d => [(m, d)] | _ => [] end) t.

Definition is_stage_operation (c : call) : bool :=
  match c with
  | Add _ _ | Remove _ _ => true
  | _ => false
  end.

Definition is_commit (c : call) : bool :=
  match c with
  | Commit _ => true
  | _ => false
  end.

Definition is_push (c : call) : bool :=
  match c with
  | Push _ => true
  | _ => false
  end.

(** ** A concrete run *)

(** [path.join] on two non-empty normalized POSIX segments. *)
Definition posix_join (a b : string) : string := (a ++ "/" ++ b)%string.

Definition row (f : string) (hd wd st : Z) : status_row :=
  {| row_filepath := f; row_head := hd; row_workdir := wd; row_stage := st |}.

Definition fulfilled_at (n : nat) : settlement :=
  {| settled_at := n; rejection_of := None |}.

Definition rejected_at (n : nat) (e : js_error) : settlement :=
  {| settled_at := n; rejection_of := Some e |}.

Definition demo_settings : GithubBlogSyncPluginSettings :=
  {| githubUsername := "mkutay";
     githubRepoUrl := "github.com/mkutay/blog";
     githubPersonalAccessToken := "ghp_0123456789";
     gitDirLocation := "blog";
     nameOfCommit := "Kutay";
     emailOfCommit := "kutay@example.org" |}.

(** A host on a POSIX machine, given the answers of the library. *)
Definition posix_host
  (statusMatrix : string -> js_error + list status_row)
  (add remove : string -> string -> settlement)
  (commit : commit_args -> option js_error)
  (push : push_args -> option js_error)
  (branch : string) : host :=
  {| getBasePath := "/vault";
     os_hostname := "laptop";
     date_toString := "Mon Nov 02 2026 10:00:00 GMT+0000 (Coordinated Universal Time)";
     path_join := posix_join;
     git_statusMatrix := statusMatrix;
     git_add := add;
     git_remove := remove;
     git_commit := commit;
     git_push := push;
     checked_out_branch := branch |}.

(** A checkout with a modified page, a deleted page and a noise file under
    [public], and a new post under [content]. *)
Definition demo_status (d : string) : js_error + list status_row :=
  if String.eqb d "/vault/blog/public"
  then inr [row "index.html" 1 2 1; row ".DS_Store" 0 2 0; row "old.html" 1 0 1]
  else inr [row "post.md" 0 2 0].

(** Every call succeeds; [main] is checked out. *)
Definition demo_host : host :=
  posix_host demo_status
             (fun _ _ => fulfilled_at 2) (fun _ _ => fulfilled_at 1)
             (fun _ => None) (fun _ => None) "main".

Definition EACCES : js_error :=
  {| err_name := "Error"; err_message := "EACCES: permission denied" |}.

(** The same checkout with an index that cannot be written: every
    [git.add] rejects. *)
Definition readonly_host : host :=
  posix_host demo_status
             (fun _ _ => rejected_at 2 EACCES) (fun _ _ => fulfilled_at 1)
             (fun _ => None) (fun _ => None) "main".

Definition MissingNameError : js_error :=
  {| err_name := "MissingNameError";
     err_message := "No name was provided for author in the argument or in the .git/config file." |}.

(** The same checkout where [git.commit] rejects. *)
Definition anonymous_host : host :=
  posix_host demo_status
             (fun _ _ => fulfilled_at 2) (fun _ _ => fulfilled_at 1)
             (fun _ => Some MissingNameError) (fun _ => None) "main".

Definition HttpError : js_error :=
  {| err_name := "HttpError"; err_message := "HTTP Error: 401 Unauthorized" |}.

(** The same checkout where the remote turns the push down. *)
Definition unauthorized_host : host :=
  posix_host demo_status
             (fun _ _ => fulfilled_at 2) (fun _ _ => fulfilled_at 1)
             (fun _ => None) (fun _ => Some HttpError) "main".

(** The same checkout with the branch [drafts] checked out. *)
Definition drafts_host : host :=
  posix_host demo_status
             (fun _ _ => fulfilled_at 2) (fun _ _ => fulfilled_at 1)
             (fun _ => None) (fun _ => None) "drafts".

(** A checkout in which nothing has changed: every file under [public] and
    [content] is reported unmodified. *)
Definition clean_status (d : string) : js_error + list status_row :=
  if String.eqb d "/vault/blog/public"
  then inr [row "index.html" 1 1 1]
  else inr [row "post.md" 1 1 1].

Definition clean_host : host :=
  posix_host clean_status
             (fun _ _ => fulfilled_at 1) (fun _ _ => fulfilled_at 1)
             (fun _ => None) (fun _ => None) "main".

(** ** Vocabulary of the specification *)

(** A path is noise when its name contains the token. *)
Definition noise (r : status_row) : bool := includes (row_filepath r) ".DS_Store".

Definition quiet (r : status_row) : bool := negb (noise r).

(** The operation a reported path asks for: an index removal when the
    worktree status is zero, a stage otherwise; and the way its promise
    ends on this host. *)
Definition operation (h : host) (dir sub : string) (r : status_row) : call :=
  if (row_workdir r =? 0)%Z
  then Remove dir (path_join h sub (row_filepath r))
  else Add dir (path_join h sub (row_filepath r)).

Definition operation_settlement (h : host) (dir sub : string) (r : status_row)
  : settlement :=
  if (row_workdir r =? 0)%Z
  then git_remove h dir (path_join h sub (row_filepath r))
  else git_add h dir (path_join h sub (row_filepath r)).

Definition fulfils (p : pending) : Prop := rejection_of (snd p) = None.

(** The promises in flight once [status.map] has run over [rows]. *)
Definition in_flight (h : host) (dir sub : string) (rows : list status_row)
  : list pending :=
  map (fun r => (operation h dir sub r, operation_settlement h dir sub r))
      (filter quiet rows).

Definition start_notice : event := Notice "Will push to repository" None.

Definition failure_notice (prefix : string) (e : js_error) : event :=
  Notice (prefix ++ error_toString e)%string (Some 10000%Z).

Definition is_staging_call (c : call) : bool :=
  match c with
  | StatusMatrix _ | Add _ _ | Remove _ _ => true
  | _ => false
  end.

(** The repository directory and the file path of a stage or removal. *)
Definition call_dir (c : call) : option string :=
  match c with
  | Add d _ | Remove d _ => Some d
  | _ => None
  end.

Definition call_filepath (c : call) : option string :=
  match c with
  | Add _ f | Remove _ f => Some f
  | _ => None
  end.

(** The rows a status computation reports; none when it fails. *)
Definition reported (h : host) (dir sub : string) : list status_row :=
  match git_statusMatrix h (path_join h dir sub) with
  | inr rows => rows
  | inl _ => []
  end.

Definition watched (sub : string) : Prop := sub = "public" \/ sub = "content".

(** Reported paths that differ are joined to file paths that differ. *)
Definition joins_apart (h : host) (dir : string) : Prop :=
  forall sub1 r1 sub2 r2,
    watched sub1 -> watched sub2 ->
    In r1 (reported h dir sub1) -> In r2 (reported h dir sub2) ->
    path_join h sub1 (row_filepath r1) = path_join h sub2 (row_filepath r2) ->
    row_filepath r1 = row_filepath r2.

(** Both status computations succeed and report unmodified rows only. *)
Definition unchanged_tree (h : host) (dir : string) : Prop :=
  forall sub, watched sub ->
    exists rows, git_statusMatrix h (path_join h dir sub) = inr rows
                 /\ forallb unmodified rows = true.

(** The settings with another token stored. *)
Definition with_token (settings : GithubBlogSyncPluginSettings) (token : string)
  : GithubBlogSyncPluginSettings :=
  {| githubUsername := githubUsername settings;
     githubRepoUrl := githubRepoUrl settings;
     githubPersonalAccessToken := token;
     gitDirLocation := gitDirLocation settings;
     nameOfCommit := nameOfCommit settings;
     emailOfCommit := emailOfCommit settings |}.

(** C3 as the specification words it: once the commit is created, the one
    push call pushes the branch ["main"] to [https://] followed by the
    configured repository path, with the token as user and an empty
    password. *)
Definition pushes_fixed_branch
  (h : host) (settings : GithubBlogSyncPluginSettings) : Prop :=
  snd (staging h (sync_dir h settings)) = inr tt ->
  git_commit h (commit_call h (sync_dir h settings) (nameOfCommit settings)
                            (emailOfCommit settings)) = None ->
  exists a,
    filter is_push (issued (fst (SyncBlog h settings))) = [Push a]
    /\ pushed_branch h a = "main"
    /\ push_url a = ("https://" ++ githubRepoUrl settings)%string
    /\ basic_auth (push_onAuth a) = (githubPersonalAccessToken settings, "").

(** C6 as the specification words it: on an unchanged tree no stage and no
    removal is issued, and the commit fails and is reported as the commit
    error. *)
Definition nothing_staged_commit_fails
  (h : host) (settings : GithubBlogSyncPluginSettings) : Prop :=
  unchanged_tree h (sync_dir h settings) ->
  filter is_stage_operation (issued (fst (SyncBlog h settings))) = []
  /\ exists e,
       snd (SyncBlog h settings) = inr (Some e)
       /\ notices (fst (SyncBlog h settings))
          = [ ("Will push to repository", None);
              (("Couldn't commit changes to the branch. Problem: "
                ++ error_toString e)%string, Some 10000%Z) ].

(** C8 as the specification words it: what the token field of the form
    shows is not the stored token. *)
Definition token_never_in_cleartext (settings : GithubBlogSyncPluginSettings) : Prop :=
  forall f,
    In f (display settings) ->
    setting_name f = "GitHub Personal Access Token" ->
    githubPersonalAccessToken settings <> "" ->
    rendered_text (setting_text f) <> githubPersonalAccessToken settings.

(** ** Settings objects and the plugin's data

    [this.settings] is a JavaScript object and so is what [loadData]
    returns: own properties in the order in which JavaScript lists them
    (array indices ascending, then the other keys in the order of their
    creation), each key once, on the prototype [Object.prototype].  All
    values the plugin ever stores are strings (the defaults and the text of
    an input). *)
Definition js_object : Type := list (string * string).

(** The own property [k] of [o]; [None] when [o] has none. *)
Fixpoint lookup_property (o : js_object) (k : string) : option string :=
  match o with
  | [] => None
  | (k', v) :: o' => if String.eqb k' k then Some v else lookup_property o' k
  end.

Definition has_own_property (o : js_object) (k : string) : bool :=
  match lookup_property o k with
  | Some _ => true
  | None => false
  end.

(** An own property gets a new value and keeps its place. *)
Fixpoint update_property (o : js_object) (k v : string) : js_object :=
  match o with
  | [] => []
  | (k', v') :: o' =>
      if String.eqb k' k then (k', v) :: o'
      else (k', v') :: update_property o' k v
  end.

(** The value of a decimal digit. *)
Definition digit (c : ascii) : option N :=
  let n := N_of_ascii c in
  if ((48 <=? n) && (n <=? 57))%N then Some (n - 48)%N else None.

Fixpoint decimal (s : string) (acc : N) : option N :=
  match s with
  | EmptyString => Some acc
  | String c s' =>
      match digit c with
      | Some d => decimal s' (10 * acc + d)%N
      | None => None
      end
  end.

(** The array index a key stands for: the key is the decimal numeral,
    without leading zero, of a number up to 2^32 - 2. *)
Definition array_index (k : string) : option N :=
  match k with
  | EmptyString => None
  | String c rest =>
      if Ascii.eqb c "0" && negb (string_is_empty rest) then None
      else match decimal k 0 with
           | Some n => if (n <=? 4294967294)%N then Some n else None
           | None => None
           end
  end.

(** A new property whose key is the array index [n] comes after the array
    indices up to [n] and before every other property. *)
Fixpoint insert_index (o : js_object) (n : N) (k v : string) : js_object :=
  match o with
  | [] => [(k, v)]
  | (k', v') :: o' =>
      match array_index k' with
      | Some n' =>
          if (n' <=? n)%N then (k', v') :: insert_index o' n k v
          else (k, v) :: (k', v') :: o'
      | None => (k, v) :: (k', v') :: o'
      end
  end.

(** [o[k] = v] for a string [v]: an own property is updated in place;
    otherwise the key [__proto__] reaches the setter inherited from
    [Object.prototype], which ignores a string and creates nothing; any other
    key becomes a new own property, among the array indices when it is one
    and last when it is not. *)
Definition assign_property (o : js_object) (k v : string) : js_object :=
  if has_own_property o k then update_property o k v
  else if String.eqb k "__proto__" then o
  else match array_index k with
       | Some n => insert_index o n k v
       | None => o ++ [(k, v)]
       end.

(** One source of [Object.assign]: its properties are assigned in order. *)
Definition assign_from (target source : js_object) : js_object :=
  fold_left (fun t kv => assign_property t (fst kv) (snd kv)) source target.

(** [Object.assign(target, ...sources)]; a [null] source is skipped. *)
Definition Object_assign (target : js_object) (sources : list (option js_object))
  : js_object :=
  fold_left (fun t src => match src with
                          | Some o => assign_from t o
                          | None => t
                          end) sources target.

(** The object literal of a settings value, keys in the order of lines
    24-29. *)
Definition object_of_settings (s : GithubBlogSyncPluginSettings) : js_object :=
  [ ("githubUsername", githubUsername s);
    ("githubRepoUrl", githubRepoUrl s);
    ("githubPersonalAccessToken", githubPersonalAccessToken s);
    ("gitDirLocation", gitDirLocation s);
    ("nameOfCommit", nameOfCommit s);
    ("emailOfCommit", emailOfCommit s) ].

(** The six fields as [SyncBlog] and [display] read them off the object;
    [None] when one of them is [undefined]. *)
Definition settings_of_object (o : js_object) : option GithubBlogSyncPluginSettings :=
  match lookup_property o "githubUsername",
        lookup_property o "githubRepoUrl",
        lookup_property o "githubPersonalAccessToken",
        lookup_property o "gitDirLocation",
        lookup_property o "nameOfCommit",
        lookup_property o "emailOfCommit" with
  | Some username, Some repo, Some token, Some folder, Some name, Some email =>
      Some {| githubUsername := username;
              githubRepoUrl := repo;
              githubPersonalAccessToken := token;
              gitDirLocation := folder;
              nameOfCommit := name;
              emailOfCommit := email |}
  | _, _, _, _, _, _ => None
  end.

(** The plugin: its settings in memory and the data the host keeps for it
    ([None] while nothing has been saved: [loadData] then returns [null]). *)
Record plugin := {
  plugin_settings : js_object;
  plugin_data : option js_object
}.

(** [loadSettings] (lines 131-133). *)
Definition loadSettings (p : plugin) : plugin :=
  {| plugin_settings :=
       Object_assign [] [Some (object_of_settings DEFAULT_SETTINGS); plugin_data p];
     plugin_data := plugin_data p |}.

(** [saveSettings] (lines 135-137). *)
Definition saveSettings (p : plugin) : plugin :=
  {| plugin_settings := plugin_settings p;
     plugin_data := Some (plugin_settings p) |}.

(** The plugin once [onload] has awaited [loadSettings] (line 107), on a
    host that keeps [data] for it. *)
Definition onload (data : option js_object) : plugin :=
  loadSettings {| plugin_settings := []; plugin_data := data |}.

(** The six inputs of the settings form. *)
Inductive field :=
| Username
| RepositoryUrl
| AccessToken
| FolderLocation
| CommitName
| CommitEmail.

(** The property the [onChange] handler of an input assigns (lines 160,
    171, 182, 193, 204, 215). *)
Definition field_key (f : field) : string :=
  match f with
  | Username => "githubUsername"
  | RepositoryUrl => "githubRepoUrl"
  | AccessToken => "githubPersonalAccessToken"
  | FolderLocation => "gitDirLocation"
  | CommitName => "nameOfCommit"
  | CommitEmail => "emailOfCommit"
  end.

(** The inputs in the order [display] adds them. *)
Definition form_fields : list field :=
  [Username; RepositoryUrl; AccessToken; FolderLocation; CommitName; CommitEmail].

(** An [onChange] handler: assign the property, then [saveSettings]. *)
Definition onChange (f : field) (value : string) (p : plugin) : plugin :=
  saveSettings {| plugin_settings := assign_property (plugin_settings p) (field_key f) value;
                  plugin_data := plugin_data p |}.

(** The user's edits, one after the other. *)
Definition edit_all (edits : list (field * string)) (p : plugin) : plugin :=
  fold_left (fun q e => onChange (fst e) (snd e) q) edits p.

(** A settings value with one field replaced. *)
Definition with_field (f : field) (value : string) (s : GithubBlogSyncPluginSettings)
  : GithubBlogSyncPluginSettings :=
  match f with
  | Username =>
      {| githubUsername := value;
         githubRepoUrl := githubRepoUrl s;
         githubPersonalAccessToken := githubPersonalAccessToken s;
         gitDirLocation := gitDirLocation s;
         nameOfCommit := nameOfCommit s;
         emailOfCommit := emailOfCommit s |}
  | RepositoryUrl =>
      {| githubUsername := githubUsername s;
         githubRepoUrl := value;
         githubPersonalAccessToken := githubPersonalAccessToken s;
         gitDirLocation := gitDirLocation s;
         nameOfCommit := nameOfCommit s;
         emailOfCommit := emailOfCommit s |}
  | AccessToken =>
      {| githubUsername := githubUsername s;
         githubRepoUrl := githubRepoUrl s;
         githubPersonalAccessToken := value;
         gitDirLocation := gitDirLocation s;
         nameOfCommit := nameOfCommit s;
         emailOfCommit := emailOfCommit s |}
  | FolderLocation =>
      {| githubUsername := githubUsername s;
         githubRepoUrl := githubRepoUrl s;
         githubPersonalAccessToken := githubPersonalAccessToken s;
         gitDirLocation := value;
         nameOfCommit := nameOfCommit s;
         emailOfCommit := emailOfCommit s |}
  | CommitName =>
      {| githubUsername := githubUsername s;
         githubRepoUrl := githubRepoUrl s;
         githubPersonalAccessToken := githubPersonalAccessToken s;
         gitDirLocation := gitDirLocation s;
         nameOfCommit := value;
         emailOfCommit := emailOfCommit s |}
  | CommitEmail =>
      {| githubUsername := githubUsername s;
         githubRepoUrl := githubRepoUrl s;
         githubPersonalAccessToken := githubPersonalAccessToken s;
         gitDirLocation := gitDirLocation s;
         nameOfCommit := nameOfCommit s;
         emailOfCommit := value |}
  end.

(** An object as JavaScript has them: no key twice. *)
Definition each_key_once (o : js_object) : Prop := NoDup (map fst o).

(** The stored value of a key, and the empty string when the data has none. *)
Definition stored_or_empty (data : option js_object) (k : string) : string :=
  match data with
  | Some o => match lookup_property o k with
              | Some v => v
              | None => ""
              end
  | None => ""
  end.

(** Keys by the array index they stand for. *)
Definition key_le (k k' : string) : Prop :=
  forall n m, array_index k = Some n -> array_index k' = Some m -> (n <= m)%N.

Definition index_key (k : string) : Prop := array_index k <> None.

Definition plain_key (k : string) : Prop := array_index k = None /\ k <> "__proto__".

(** What [loadSettings] builds: each key once; first the array indices,
    ascending; then the six settings keys in the order of the defaults; then
    the other keys of the data, none of them [__proto__]. *)
Definition canonical (o : js_object) : Prop :=
  each_key_once o
  /\ exists index_keys rest,
       map fst o
       = index_keys ++ map fst (object_of_settings DEFAULT_SETTINGS) ++ rest
       /\ Forall index_key index_keys
       /\ StronglySorted key_le index_keys
       /\ Forall plain_key rest.

(** The text each input of a displayed form holds. *)
Definition form_values (form : list Setting) : list string :=
  map (fun row => text_value (setting_text row)) form.

(** What a click on the ribbon icon or the command does (lines 110-113 and
    117-123): [this.SyncBlog()] on the settings in memory, its value dropped.
    [None] when one of the six fields is [undefined]. *)
Definition trigger (h : host) (p : plugin) : option (list event) :=
  option_map (fun s => fst (SyncBlog h s)) (settings_of_object (plugin_settings p)).

(** A data file written by an older version: two of the six fields, and one
    key the plugin does not know. *)
Definition old_data : js_object :=
  [ ("githubRepoUrl", "github.com/mkutay/blog");
    ("theme", "dark");
    ("nameOfCommit", "Kutay") ].

(** A data file edited by hand: fields of the plugin, keys it does not
    know, two of them array indices, and a key [__proto__]. *)
Definition odd_data : js_object :=
  [ ("2", "two");
    ("10", "ten");
    ("githubRepoUrl", "github.com/mkutay/blog");
    ("theme", "dark");
    ("__proto__", "x");
    ("nameOfCommit", "Kutay") ].

(** The host with the noise rows taken out of every status matrix. *)
Definition without_noise (h : host) : host :=
  {| getBasePath := getBasePath h;
     os_hostname := os_hostname h;
     date_toString := date_toString h;
     path_join := path_join h;
     git_statusMatrix := fun d =>
       match git_statusMatrix h d with
       | inl e => inl e
       | inr rows => inr (filter quiet rows)
       end;
     git_add := git_add h;
     git_remove := git_remove h;
     git_commit := git_commit h;
     git_push := git_push h;
     checked_out_branch := checked_out_branch h |}.

(** Promises in the order of their ticks. *)
Definition settles_no_later (p q : pending) : Prop :=
  (settled_at (snd p) <= settled_at (snd q))%nat.

(** The same checkout where the stage settles first and rejects, and the
    removal rejects later. *)
Definition ENOSPC : js_error :=
  {| err_name := "Error"; err_message := "ENOSPC: no space left on device" |}.

Definition full_disk_host : host :=
  posix_host demo_status
             (fun _ _ => rejected_at 1 ENOSPC) (fun _ _ => rejected_at 2 EACCES)
             (fun _ => None) (fun _ => None) "main".

Definition NotFoundError : js_error :=
  {| err_name := "NotFoundError"; err_message := "Could not find HEAD." |}.

(** A vault folder that is no repository: every status computation
    rejects. *)
Definition no_repository_host : host :=
  posix_host (fun _ => inl NotFoundError)
             (fun _ _ => fulfilled_at 1) (fun _ _ => fulfilled_at 1)
             (fun _ => None) (fun _ => None) "main".

(** ** Basic facts about traces and operations *)

Lemma issued_app (t1 t2 : list event) : issued (t1 ++ t2) = issued t1 ++ issued t2.
Proof. unfold issued. apply flat_map_app. Qed.

Lemma notices_app (t1 t2 : list event) : notices (t1 ++ t2) = notices t1 ++ notices t2.
Proof. unfold notices. apply flat_map_app. Qed.

Lemma issued_map_Issue (l : list call) : issued (map Issue l) = l.
Proof. induction l as [|c l IH]; simpl; [reflexivity|f_equal; exact IH]. Qed.

Lemma notices_map_Issue (l : list call) : notices (map Issue l) = [].
Proof. induction l as [|c l IH]; simpl; [reflexivity|exact IH]. Qed.

Lemma operation_is_stage_operation h dir sub r :
  is_stage_operation (operation h dir sub r) = true.
Proof. unfold operation. destruct (row_workdir r =? 0)%Z; reflexivity. Qed.

Lemma operation_dir h dir sub r : call_dir (operation h dir sub r) = Some dir.
Proof. unfold operation. destruct (row_workdir r =? 0)%Z; reflexivity. Qed.

Lemma operation_filepath h dir sub r :
  call_filepath (operation h dir sub r) = Some (path_join h sub (row_filepath r)).
Proof. unfold operation. destruct (row_workdir r =? 0)%Z; reflexivity. Qed.

(** ** Settle order and [Promise.all] *)

Section SettleOrder.

Lemma insert_by_tick_perm (p : pending) (l : list pending) :
  Permutation (p :: l) (insert_by_tick p l).
Proof.
  induction l as [|q l IH]; simpl.
  - apply Permutation_refl.
  - destruct (settled_at (snd p) <=? settled_at (snd q))%nat.
    + apply Permutation_refl.
    + eapply perm_trans; [apply perm_swap|].
      apply perm_skip. exact IH.
Qed.

Lemma settle_order_perm (l : list pending) : Permutation l (settle_order l).
Proof.
  induction l as [|p l IH]; simpl.
  - constructor.
  - eapply perm_trans; [apply perm_skip; exact IH|].
    apply insert_by_tick_perm.
Qed.

Lemma settle_order_In (p : pending) (l : list pending) :
  In p (settle_order l) <-> In p l.
Proof.
  split; intro H.
  - eapply Permutation_in; [apply Permutation_sym, settle_order_perm|exact H].
  - eapply Permutation_in; [apply settle_order_perm|exact H].
Qed.

Lemma settle_order_fulfils (l : list pending) :
  Forall fulfils l -> Forall fulfils (settle_order l).
Proof.
  intro H. eapply Permutation_Forall; [apply settle_order_perm|exact H].
Qed.

End SettleOrder.

Section SettleUntilRejection.

Lemma settle_all_fulfilled (l : list pending) :
  Forall fulfils l ->
  settle_until_rejection l = (map (fun p => Settle (fst p) None) l, inr tt).
Proof.
  induction 1 as [|[c s] l Hp _ IH]; simpl.
  - reflexivity.
  - unfold fulfils in Hp. simpl in Hp. rewrite Hp, IH. reflexivity.
Qed.

Lemma settle_fulfilled_inv (l : list pending) (u : unit) :
  snd (settle_until_rejection l) = inr u -> Forall fulfils l.
Proof.
  induction l as [|[c s] l IH]; simpl; intro H.
  - constructor.
  - destruct (rejection_of s) eqn:E; simpl in H; [discriminate|].
    constructor; [exact E|apply IH; exact H].
Qed.

Lemma settle_rejected_inv (l : list pending) (e : js_error) :
  snd (settle_until_rejection l) = inl e ->
  exists p, In p l /\ rejection_of (snd p) = Some e.
Proof.
  induction l as [|[c s] l IH]; simpl; intro H.
  - discriminate.
  - destruct (rejection_of s) eqn:E; simpl in H.
    + inversion H; subst. exists (c, s). split; [left; reflexivity|exact E].
    + destruct (IH H) as [p [Hin Hp]]. exists p. split; [right; exact Hin|exact Hp].
Qed.

Lemma settle_some_rejected (l : list pending) :
  Exists (fun p => rejection_of (snd p) <> None) l ->
  exists e, snd (settle_until_rejection l) = inl e.
Proof.
  induction l as [|[c s] l IH]; simpl; intro H.
  - inversion H.
  - destruct (rejection_of s) eqn:E; simpl.
    + eexists; reflexivity.
    + inversion H as [? ? Hp|? ? Hl]; subst.
      * simpl in Hp. congruence.
      * apply IH. exact Hl.
Qed.

Lemma settle_issues_nothing (l : list pending) :
  issued (fst (settle_until_rejection l)) = [].
Proof.
  induction l as [|[c s] l IH]; simpl.
  - reflexivity.
  - destruct (rejection_of s); simpl; [reflexivity|exact IH].
Qed.

Lemma settle_shows_nothing (l : list pending) :
  notices (fst (settle_until_rejection l)) = [].
Proof.
  induction l as [|[c s] l IH]; simpl.
  - reflexivity.
  - destruct (rejection_of s); simpl; [reflexivity|exact IH].
Qed.

End SettleUntilRejection.

(** ** One watched subdirectory *)

Section Stage.

Variable h : host.
Variables dir sub : string.

Lemma callback_quiet (r : status_row) :
  quiet r = true ->
  stage_callback h dir sub r
  = Some (operation h dir sub r, operation_settlement h dir sub r).
Proof.
  unfold quiet, noise, stage_callback, operation, operation_settlement, truthy.
  intro Hq. destruct (includes (row_filepath r) ".DS_Store"); [discriminate|].
  destruct (row_workdir r =? 0)%Z; reflexivity.
Qed.

Lemma callback_noise (r : status_row) :
  quiet r = false -> stage_callback h dir sub r = None.
Proof.
  unfold quiet, noise, stage_callback. intro Hq.
  destruct (includes (row_filepath r) ".DS_Store"); [reflexivity|discriminate].
Qed.

Lemma callback_promises (rows : list status_row) :
  promises_of (map (stage_callback h dir sub) rows) = in_flight h dir sub rows.
Proof.
  unfold in_flight. induction rows as [|r rows IH]; simpl.
  - reflexivity.
  - destruct (quiet r) eqn:Hq.
    + rewrite (callback_quiet r Hq). simpl. rewrite IH. reflexivity.
    + rewrite (callback_noise r Hq). exact IH.
Qed.

Lemma stage_status_rejected (e : js_error) :
  git_statusMatrix h (path_join h dir sub) = inl e ->
  stage h dir sub
  = ([Issue (StatusMatrix (path_join h dir sub));
      Settle (StatusMatrix (path_join h dir sub)) (Some e)], inl e).
Proof.
  intro Hs. unfold stage, await_statusMatrix. rewrite Hs. reflexivity.
Qed.

Lemma stage_status_reported (rows : list status_row) :
  git_statusMatrix h (path_join h dir sub) = inr rows ->
  stage h dir sub
  = (Issue (StatusMatrix (path_join h dir sub))
       :: Settle (StatusMatrix (path_join h dir sub)) None
       :: map Issue (map (operation h dir sub) (filter quiet rows))
       ++ fst (settle_until_rejection (settle_order (in_flight h dir sub rows))),
     snd (settle_until_rejection (settle_order (in_flight h dir sub rows)))).
Proof.
  intro Hs. unfold stage, await_statusMatrix, status_map, Promise_all.
  rewrite Hs. cbn. rewrite callback_promises.
  unfold in_flight at 1. rewrite !map_map. cbn.
  destruct (settle_until_rejection (settle_order (in_flight h dir sub rows)))
    as [t [e|[]]]; reflexivity.
Qed.

End Stage.

Section StageFacts.

Variable h : host.
Variables dir sub : string.
Variable rows : list status_row.
Hypothesis Hrows : git_statusMatrix h (path_join h dir sub) = inr rows.

Lemma stage_issued :
  issued (fst (stage h dir sub))
  = StatusMatrix (path_join h dir sub)
      :: map (operation h dir sub) (filter quiet rows).
Proof.
  rewrite (stage_status_reported h dir sub rows Hrows). cbn.
  unfold issued. rewrite flat_map_app.
  fold (issued (fst (settle_until_rejection (settle_order (in_flight h dir sub rows))))).
  rewrite settle_issues_nothing, app_nil_r.
  f_equal. apply issued_map_Issue.
Qed.

Lemma stage_fulfilled_inv (u : unit) :
  snd (stage h dir sub) = inr u -> Forall fulfils (in_flight h dir sub rows).
Proof.
  rewrite (stage_status_reported h dir sub rows Hrows). cbn. intro H.
  apply settle_fulfilled_inv in H.
  eapply Permutation_Forall; [apply Permutation_sym, settle_order_perm|exact H].
Qed.

Lemma stage_fulfilled :
  Forall fulfils (in_flight h dir sub rows) ->
  stage h dir sub
  = (Issue (StatusMatrix (path_join h dir sub))
       :: Settle (StatusMatrix (path_join h dir sub)) None
       :: map Issue (map (operation h dir sub) (filter quiet rows))
       ++ map (fun p => Settle (fst p) None) (settle_order (in_flight h dir sub rows)),
     inr tt).
Proof.
  intro H. rewrite (stage_status_reported h dir sub rows Hrows).
  rewrite (settle_all_fulfilled _ (settle_order_fulfils _ H)). reflexivity.
Qed.

Lemma stage_rejected_inv (e : js_error) :
  snd (stage h dir sub) = inl e ->
  exists r, In r rows /\ quiet r = true
            /\ rejection_of (operation_settlement h dir sub r) = Some e.
Proof.
  rewrite (stage_status_reported h dir sub rows Hrows). cbn. intro H.
  apply settle_rejected_inv in H. destruct H as [p [Hin Hp]].
  apply (proj1 (settle_order_In _ _)) in Hin. unfold in_flight in Hin.
  apply in_map_iff in Hin. destruct Hin as [r [<- Hr]].
  apply filter_In in Hr. destruct Hr as [Hr Hq].
  exists r. repeat split; assumption.
Qed.

Lemma stage_some_rejected (r : status_row) :
  In r rows -> quiet r = true ->
  rejection_of (operation_settlement h dir sub r) <> None ->
  exists e, snd (stage h dir sub) = inl e.
Proof.
  intros Hr Hq Hrej.
  rewrite (stage_status_reported h dir sub rows Hrows). cbn.
  apply settle_some_rejected. apply Exists_exists.
  exists (operation h dir sub r, operation_settlement h dir sub r).
  split; [|exact Hrej].
  apply (proj2 (settle_order_In _ _)). unfold in_flight. apply in_map_iff.
  exists r. split; [reflexivity|]. apply filter_In. split; assumption.
Qed.

End StageFacts.

(** ** The three steps *)

Lemma bind_rejected {A B} (m : js A) (f : A -> js B) (e : js_error) :
  snd m = inl e -> bind m f = (fst m, inl e).
Proof.
  destruct m as [t [e'|a]]; cbn; intro H; inversion H; reflexivity.
Qed.

Lemma bind_fulfilled {A B} (m : js A) (f : A -> js B) (a : A) :
  snd m = inr a -> bind m f = (fst m ++ fst (f a), snd (f a)).
Proof.
  destruct m as [t [e'|a']]; cbn; intro H; inversion H; reflexivity.
Qed.

Arguments stage : simpl never.
Arguments staging : simpl never.

Section Steps.

Variable h : host.
Variable settings : GithubBlogSyncPluginSettings.

Let dir := sync_dir h settings.
Let commit_arg :=
  commit_call h dir (nameOfCommit settings) (emailOfCommit settings).
Let push_arg :=
  push_call dir (githubRepoUrl settings) (githubPersonalAccessToken settings).

Lemma staging_public_rejected (e : js_error) :
  snd (stage h dir "public") = inl e ->
  staging h dir = (fst (stage h dir "public"), inl e).
Proof.
  intro H. unfold staging. apply bind_rejected. exact H.
Qed.

Lemma staging_public_fulfilled (u : unit) :
  snd (stage h dir "public") = inr u ->
  staging h dir
  = (fst (stage h dir "public") ++ fst (stage h dir "content"),
     snd (stage h dir "content")).
Proof.
  intro H. unfold staging. apply bind_fulfilled with (a := u). exact H.
Qed.

Ltac enter_SyncBlog dir :=
  unfold SyncBlog, try, await; cbn;
  change (path_join _ (getBasePath _) (gitDirLocation _)) with dir.

Lemma SyncBlog_staging_failed (e : js_error) :
  snd (staging h dir) = inl e ->
  SyncBlog h settings
  = (start_notice :: fst (staging h dir)
       ++ [failure_notice "Couldn't add updated files. Problem: " e],
     inr (Some e)).
Proof.
  intro H. enter_SyncBlog dir. rewrite H. reflexivity.
Qed.

Lemma SyncBlog_commit_failed (u : unit) (e : js_error) :
  snd (staging h dir) = inr u ->
  git_commit h commit_arg = Some e ->
  SyncBlog h settings
  = (start_notice :: fst (staging h dir)
       ++ [Issue (Commit commit_arg); Settle (Commit commit_arg) (Some e);
           failure_notice "Couldn't commit changes to the branch. Problem: " e],
     inr (Some e)).
Proof.
  intros H Hc. enter_SyncBlog dir. rewrite H. cbn.
  fold commit_arg. rewrite Hc. reflexivity.
Qed.

Lemma SyncBlog_push_failed (u : unit) (e : js_error) :
  snd (staging h dir) = inr u ->
  git_commit h commit_arg = None ->
  git_push h push_arg = Some e ->
  SyncBlog h settings
  = (start_notice :: fst (staging h dir)
       ++ [Issue (Commit commit_arg); Settle (Commit commit_arg) None;
           Issue (Push push_arg); Settle (Push push_arg) (Some e);
           failure_notice "Couldn't push changes to the repository. Problem: " e],
     inr (Some e)).
Proof.
  intros H Hc Hp. enter_SyncBlog dir. rewrite H. cbn.
  fold commit_arg. rewrite Hc. cbn. fold push_arg. rewrite Hp. reflexivity.
Qed.

Lemma SyncBlog_pushed (u : unit) :
  snd (staging h dir) = inr u ->
  git_commit h commit_arg = None ->
  git_push h push_arg = None ->
  SyncBlog h settings
  = (start_notice :: fst (staging h dir)
       ++ [Issue (Commit commit_arg); Settle (Commit commit_arg) None;
           Issue (Push push_arg); Settle (Push push_arg) None;
           Notice ("GitHub Blog Sync: Pushed to " ++ githubRepoUrl settings)%string
                  None],
     inr None).
Proof.
  intros H Hc Hp. enter_SyncBlog dir. rewrite H. cbn.
  fold commit_arg. rewrite Hc. cbn. fold push_arg. rewrite Hp. reflexivity.
Qed.

End Steps.

(** ** The shape of a run *)

Section StageAny.

Variable h : host.
Variable dir : string.

(** Whatever the status computation answers, a subdirectory's step issues
    the status call and then one operation per quiet reported row. *)
Lemma stage_issued_any (sub : string) :
  issued (fst (stage h dir sub))
  = StatusMatrix (path_join h dir sub)
      :: map (operation h dir sub) (filter quiet (reported h dir sub)).
Proof.
  unfold reported. destruct (git_statusMatrix h (path_join h dir sub)) as [e|rows] eqn:E.
  - rewrite (stage_status_rejected h dir sub e E). reflexivity.
  - apply stage_issued. exact E.
Qed.

Lemma stage_shows_nothing (sub : string) : notices (fst (stage h dir sub)) = [].
Proof.
  destruct (git_statusMatrix h (path_join h dir sub)) as [e|rows] eqn:E.
  - rewrite (stage_status_rejected h dir sub e E). reflexivity.
  - rewrite (stage_status_reported h dir sub rows E). cbn.
    rewrite notices_app, notices_map_Issue, settle_shows_nothing. reflexivity.
Qed.

Lemma stage_yields (sub : string) :
  (exists e, snd (stage h dir sub) = inl e) \/ snd (stage h dir sub) = inr tt.
Proof.
  destruct (snd (stage h dir sub)) as [e|[]]; [left; exists e|right]; reflexivity.
Qed.

Lemma staging_yields :
  (exists e, snd (staging h dir) = inl e) \/ snd (staging h dir) = inr tt.
Proof.
  destruct (snd (staging h dir)) as [e|[]]; [left; exists e|right]; reflexivity.
Qed.

End StageAny.

Section Shape.

Variable h : host.
Variable settings : GithubBlogSyncPluginSettings.

Let dir := sync_dir h settings.

(** A run is the start notice, the staging step, and a closing part that
    issues no staging call. *)
Lemma SyncBlog_shape :
  exists closing,
    fst (SyncBlog h settings) = start_notice :: fst (staging h dir) ++ closing
    /\ Forall (fun c => is_staging_call c = false) (issued closing).
Proof.
  destruct (staging_yields h dir) as [[e He]|Hs].
  - rewrite (SyncBlog_staging_failed h settings e He).
    eexists; split; [reflexivity|constructor].
  - destruct (git_commit h (commit_call h dir (nameOfCommit settings)
                                        (emailOfCommit settings))) as [e|] eqn:Hc.
    + rewrite (SyncBlog_commit_failed h settings tt e Hs Hc).
      eexists; split; [reflexivity|repeat constructor].
    + destruct (git_push h (push_call dir (githubRepoUrl settings)
                                      (githubPersonalAccessToken settings)))
        as [e|] eqn:Hp.
      * rewrite (SyncBlog_push_failed h settings tt e Hs Hc Hp).
        eexists; split; [reflexivity|repeat constructor].
      * rewrite (SyncBlog_pushed h settings tt Hs Hc Hp).
        eexists; split; [reflexivity|repeat constructor].
Qed.

(** The calls of a run whose ["public"] step failed. *)
Lemma issued_public_rejected (e : js_error) :
  snd (stage h dir "public") = inl e ->
  issued (fst (SyncBlog h settings)) = issued (fst (stage h dir "public")).
Proof.
  intro H. pose proof (staging_public_rejected h settings e H) as Hst.
  fold dir in Hst.
  assert (Hs : snd (staging h dir) = inl e) by (rewrite Hst; reflexivity).
  rewrite (SyncBlog_staging_failed h settings e Hs). fold dir. rewrite Hst.
  cbn. rewrite issued_app. cbn. apply app_nil_r.
Qed.

(** The calls of a run whose ["public"] step succeeded. *)
Lemma issued_public_fulfilled :
  snd (stage h dir "public") = inr tt ->
  exists closing,
    issued (fst (SyncBlog h settings))
    = issued (fst (stage h dir "public"))
        ++ issued (fst (stage h dir "content")) ++ closing
    /\ Forall (fun c => is_staging_call c = false) closing.
Proof.
  intro H. destruct SyncBlog_shape as [closing [Ht Hc]].
  exists (issued closing). split; [|exact Hc].
  rewrite Ht. pose proof (staging_public_fulfilled h settings tt H) as Hst.
  fold dir in Hst. rewrite Hst. cbn.
  rewrite !issued_app. rewrite app_assoc. reflexivity.
Qed.

End Shape.

(** ** Staging: one operation per reported path *)

Lemma not_staging_not_stage_operation (c : call) :
  is_staging_call c = false -> is_stage_operation c = false.
Proof. destruct c; simpl; congruence. Qed.

Lemma closing_head (closing : list call) (c : call) :
  Forall (fun c => is_staging_call c = false) closing ->
  hd_error closing = Some c -> is_stage_operation c = false.
Proof.
  intros Hall Hhd. destruct closing as [|c' l]; [discriminate|].
  inversion Hhd; subst. inversion Hall; subst.
  apply not_staging_not_stage_operation. assumption.
Qed.

(** The calls of a run around the status call of a subdirectory whose
    status computation is reached and reports [rows]. *)
Lemma reported_block
  (h : host) (settings : GithubBlogSyncPluginSettings)
  (sub : string) (rows : list status_row) :
  sub = "public"
  \/ (sub = "content" /\ snd (stage h (sync_dir h settings) "public") = inr tt) ->
  git_statusMatrix h (path_join h (sync_dir h settings) sub) = inr rows ->
  exists pre post,
    issued (fst (SyncBlog h settings))
    = pre ++ StatusMatrix (path_join h (sync_dir h settings) sub)
          :: map (operation h (sync_dir h settings) sub) (filter quiet rows)
          ++ post
    /\ (forall c, hd_error post = Some c -> is_stage_operation c = false).
Proof.
  intros Hsub Hrows.
  pose proof (stage_issued h (sync_dir h settings) sub rows Hrows) as Hops.
  destruct Hsub as [->|[-> Hpub]].
  - destruct (stage_yields h (sync_dir h settings) "public") as [[e He]|Hok].
    + exists [], []. split.
      * rewrite (issued_public_rejected h settings e He), Hops, app_nil_r.
        reflexivity.
      * intros c Hc. discriminate.
    + destruct (issued_public_fulfilled h settings Hok) as [closing [Ht Hc]].
      exists [], (issued (fst (stage h (sync_dir h settings) "content")) ++ closing).
      split.
      * rewrite Ht, Hops. reflexivity.
      * intros c Hhd. rewrite stage_issued_any in Hhd. simpl in Hhd.
        inversion Hhd. reflexivity.
  - destruct (issued_public_fulfilled h settings Hpub) as [closing [Ht Hc]].
    exists (issued (fst (stage h (sync_dir h settings) "public"))), closing.
    split.
    + rewrite Ht, Hops. reflexivity.
    + intros c Hhd. eapply closing_head; eassumption.
Qed.

Lemma filter_stage_operations (l : list call) :
  Forall (fun c => is_stage_operation c = true) l -> filter is_stage_operation l = l.
Proof.
  induction 1 as [|c l Hc _ IH]; simpl; [reflexivity|]. rewrite Hc, IH. reflexivity.
Qed.

Lemma closing_no_stage_operation (closing : list call) :
  Forall (fun c => is_staging_call c = false) closing ->
  filter is_stage_operation closing = [].
Proof.
  induction 1 as [|c l Hc _ IH]; simpl; [reflexivity|].
  rewrite (not_staging_not_stage_operation c Hc). exact IH.
Qed.

Lemma operations_stage_operations (h : host) (dir sub : string) (rows : list status_row) :
  Forall (fun c => is_stage_operation c = true) (map (operation h dir sub) rows).
Proof.
  apply Forall_forall. intros c Hc. apply in_map_iff in Hc.
  destruct Hc as [r [<- _]]. apply operation_is_stage_operation.
Qed.

(** The stages and removals of a whole run. *)
Lemma stage_operations_of_run (h : host) (settings : GithubBlogSyncPluginSettings) :
  filter is_stage_operation (issued (fst (SyncBlog h settings)))
  = map (operation h (sync_dir h settings) "public")
        (filter quiet (reported h (sync_dir h settings) "public"))
    ++ match snd (stage h (sync_dir h settings) "public") with
       | inr _ =>
           map (operation h (sync_dir h settings) "content")
               (filter quiet (reported h (sync_dir h settings) "content"))
       | inl _ => []
       end.
Proof.
  destruct (stage_yields h (sync_dir h settings) "public") as [[e He]|Hok].
  - rewrite (issued_public_rejected h settings e He), He, stage_issued_any.
    cbn [filter is_stage_operation].
    rewrite (filter_stage_operations _ (operations_stage_operations _ _ _ _)).
    rewrite app_nil_r. reflexivity.
  - destruct (issued_public_fulfilled h settings Hok) as [closing [Ht Hc]].
    rewrite Ht, Hok, !filter_app, !stage_issued_any.
    cbn [filter is_stage_operation].
    rewrite !(filter_stage_operations _ (operations_stage_operations _ _ _ _)).
    rewrite (closing_no_stage_operation closing Hc), app_nil_r. reflexivity.
Qed.

Lemma operations_as_asked (h : host) (dir sub : string) (rows : list status_row) :
  Forall2
    (fun r c =>
       (row_workdir r <> 0%Z -> c = Add dir (path_join h sub (row_filepath r)))
       /\ (row_workdir r = 0%Z -> c = Remove dir (path_join h sub (row_filepath r))))
    rows (map (operation h dir sub) rows).
Proof.
  induction rows as [|r l IH]; simpl; constructor; [|exact IH].
  unfold operation. destruct (Z.eqb_spec (row_workdir r) 0) as [E|E]; split;
    intro H; congruence.
Qed.

(** C1.  The stages and index removals of a whole run are, in order, one
    operation for each path reported for ["public"] whose name does not
    contain [.DS_Store], followed, once the ["public"] step has succeeded, by
    one operation for each such path reported for ["content"], and nothing
    else (a status computation that is not reached or that fails reports no
    path): a stage when the worktree status of the path is nonzero, an index
    removal when it is zero. *)
Theorem SyncBlog_one_operation_per_path
  (h : host) (settings : GithubBlogSyncPluginSettings) :
  exists public_operations content_operations,
    filter is_stage_operation (issued (fst (SyncBlog h settings)))
    = public_operations ++ content_operations
    /\ Forall2
         (fun r c =>
            (row_workdir r <> 0%Z ->
             c = Add (sync_dir h settings) (path_join h "public" (row_filepath r)))
            /\ (row_workdir r = 0%Z ->
                c = Remove (sync_dir h settings)
                           (path_join h "public" (row_filepath r))))
         (filter (fun r => negb (includes (row_filepath r) ".DS_Store"))
                 (reported h (sync_dir h settings) "public"))
         public_operations
    /\ (snd (stage h (sync_dir h settings) "public") = inr tt ->
        Forall2
          (fun r c =>
             (row_workdir r <> 0%Z ->
              c = Add (sync_dir h settings) (path_join h "content" (row_filepath r)))
             /\ (row_workdir r = 0%Z ->
                 c = Remove (sync_dir h settings)
                            (path_join h "content" (row_filepath r))))
          (filter (fun r => negb (includes (row_filepath r) ".DS_Store"))
                  (reported h (sync_dir h settings) "content"))
          content_operations)
    /\ (snd (stage h (sync_dir h settings) "public") <> inr tt ->
        content_operations = []).
Proof.
  pose proof (stage_operations_of_run h settings) as Hrun.
  change (fun r => negb (includes (row_filepath r) ".DS_Store")) with quiet.
  destruct (snd (stage h (sync_dir h settings) "public")) as [e|[]] eqn:Hpub.
  - eexists. exists []. split; [exact Hrun|].
    split; [apply operations_as_asked|]. split; [discriminate|reflexivity].
  - do 2 eexists. split; [exact Hrun|].
    split; [apply operations_as_asked|].
    split; [intros _; apply operations_as_asked|intro H; contradiction].
Qed.

Lemma SyncBlog_one_operation_per_path_witness :
  exists public_operations content_operations,
    [ Add "/vault/blog" "public/index.html";
      Remove "/vault/blog" "public/old.html";
      Add "/vault/blog" "content/post.md" ]
    = public_operations ++ content_operations
    /\ Forall2
         (fun r c =>
            (row_workdir r <> 0%Z ->
             c = Add "/vault/blog" (posix_join "public" (row_filepath r)))
            /\ (row_workdir r = 0%Z ->
                c = Remove "/vault/blog" (posix_join "public" (row_filepath r))))
         [row "index.html" 1 2 1; row "old.html" 1 0 1]
         public_operations
    /\ (@inr js_error unit tt = inr tt ->
        Forall2
          (fun r c =>
             (row_workdir r <> 0%Z ->
              c = Add "/vault/blog" (posix_join "content" (row_filepath r)))
             /\ (row_workdir r = 0%Z ->
                 c = Remove "/vault/blog" (posix_join "content" (row_filepath r))))
          [row "post.md" 0 2 0]
          content_operations)
    /\ (@inr js_error unit tt <> inr tt -> content_operations = []).
Proof.
  exact (SyncBlog_one_operation_per_path demo_host demo_settings).
Defined.

(** C9.  The status computation of a watched subdirectory is called with
    the subdirectory itself, the configured root joined with its name, as
    repository directory; the stages and removals that follow are called with
    the configured root as repository directory and, as file path, the
    subdirectory name joined with the reported path. *)
Theorem status_in_subdirectory_operations_in_root
  (h : host) (settings : GithubBlogSyncPluginSettings)
  (sub : string) (rows : list status_row) :
  sub = "public"
  \/ (sub = "content" /\ snd (stage h (sync_dir h settings) "public") = inr tt) ->
  git_statusMatrix h
    (path_join h (path_join h (getBasePath h) (gitDirLocation settings)) sub)
  = inr rows ->
  exists pre ops post,
    issued (fst (SyncBlog h settings))
    = pre ++ StatusMatrix
               (path_join h (path_join h (getBasePath h) (gitDirLocation settings)) sub)
          :: ops ++ post
    /\ Forall (fun c => is_stage_operation c = true) ops
    /\ map call_dir ops
       = map (fun _ => Some (path_join h (getBasePath h) (gitDirLocation settings)))
             (filter quiet rows)
    /\ map call_filepath ops
       = map (fun r => Some (path_join h sub (row_filepath r))) (filter quiet rows)
    /\ (forall c, hd_error post = Some c -> is_stage_operation c = false).
Proof.
  intros Hsub Hrows.
  destruct (reported_block h settings sub rows Hsub Hrows) as [pre [post [Ht Hpost]]].
  exists pre, (map (operation h (sync_dir h settings) sub) (filter quiet rows)), post.
  split; [exact Ht|]. repeat split.
  - apply Forall_forall. intros c Hc. apply in_map_iff in Hc.
    destruct Hc as [r [<- _]]. apply operation_is_stage_operation.
  - rewrite map_map. apply map_ext. intro r. apply operation_dir.
  - rewrite map_map. apply map_ext. intro r. apply operation_filepath.
  - exact Hpost.
Qed.

Lemma status_in_subdirectory_operations_in_root_witness :
  exists pre ops post,
    issued (fst (SyncBlog demo_host demo_settings))
    = pre ++ StatusMatrix "/vault/blog/content" :: ops ++ post
    /\ Forall (fun c => is_stage_operation c = true) ops
    /\ map call_dir ops = [Some "/vault/blog"]
    /\ map call_filepath ops = [Some "content/post.md"]
    /\ (forall c, hd_error post = Some c -> is_stage_operation c = false).
Proof.
  exact (status_in_subdirectory_operations_in_root demo_host demo_settings "content"
           [row "post.md" 0 2 0] (or_intror (conj eq_refl eq_refl)) eq_refl).
Defined.

(** ** Noise paths *)

(** Every stage or removal of a run is the operation of a quiet reported
    row of one of the two watched subdirectories. *)
Lemma stage_operation_origin
  (h : host) (settings : GithubBlogSyncPluginSettings) (c : call) :
  In c (issued (fst (SyncBlog h settings))) ->
  is_stage_operation c = true ->
  exists sub r,
    watched sub /\ In r (reported h (sync_dir h settings) sub)
    /\ quiet r = true /\ c = operation h (sync_dir h settings) sub r.
Proof.
  intros Hin Hop.
  assert (Hstage : forall sub, watched sub ->
            In c (issued (fst (stage h (sync_dir h settings) sub))) ->
            exists sub r,
              watched sub /\ In r (reported h (sync_dir h settings) sub)
              /\ quiet r = true /\ c = operation h (sync_dir h settings) sub r).
  { intros sub Hw Hc. rewrite stage_issued_any in Hc.
    destruct Hc as [<-|Hc]; [discriminate|].
    apply in_map_iff in Hc. destruct Hc as [r [<- Hr]].
    apply filter_In in Hr. destruct Hr as [Hr Hq].
    exists sub, r. repeat split; assumption. }
  destruct (stage_yields h (sync_dir h settings) "public") as [[e He]|Hok].
  - rewrite (issued_public_rejected h settings e He) in Hin.
    apply (Hstage "public"); [left; reflexivity|exact Hin].
  - destruct (issued_public_fulfilled h settings Hok) as [closing [Ht Hc]].
    rewrite Ht in Hin. apply in_app_or in Hin. destruct Hin as [Hin|Hin].
    + apply (Hstage "public"); [left; reflexivity|exact Hin].
    + apply in_app_or in Hin. destruct Hin as [Hin|Hin].
      * apply (Hstage "content"); [right; reflexivity|exact Hin].
      * rewrite Forall_forall in Hc. apply Hc in Hin.
        apply not_staging_not_stage_operation in Hin. congruence.
Qed.

(** C7.  A reported path whose name contains [.DS_Store] is never the file
    path of a stage or of an index removal issued by the run, whatever its
    head, worktree and index status (reported paths that differ being joined
    to file paths that differ). *)
Theorem noise_never_staged_or_removed
  (h : host) (settings : GithubBlogSyncPluginSettings)
  (sub : string) (r : status_row) (c : call) :
  joins_apart h (sync_dir h settings) ->
  watched sub ->
  In r (reported h (sync_dir h settings) sub) ->
  includes (row_filepath r) ".DS_Store" = true ->
  In c (issued (fst (SyncBlog h settings))) ->
  is_stage_operation c = true ->
  call_filepath c <> Some (path_join h sub (row_filepath r)).
Proof.
  intros Hapart Hw Hr Hnoise Hin Hop Hpath.
  destruct (stage_operation_origin h settings c Hin Hop)
    as [sub' [r' [Hw' [Hr' [Hq' ->]]]]].
  rewrite operation_filepath in Hpath. inversion Hpath as [Heq].
  apply (Hapart sub' r' sub r Hw' Hw Hr' Hr) in Heq.
  unfold quiet, noise in Hq'. rewrite Heq, Hnoise in Hq'. discriminate.
Qed.

Lemma demo_joins_apart : joins_apart demo_host (sync_dir demo_host demo_settings).
Proof.
  intros sub1 r1 sub2 r2 [->| ->] [->| ->] H1 H2 Heq; cbn in H1, H2;
    repeat (destruct H1 as [<-|H1]; [|]); try contradiction;
    repeat (destruct H2 as [<-|H2]; [|]); try contradiction;
    cbn in Heq; solve [reflexivity | discriminate Heq].
Defined.

Lemma noise_never_staged_or_removed_witness :
  Forall (fun c => is_stage_operation c = true ->
                   call_filepath c <> Some "public/.DS_Store")
         (issued (fst (SyncBlog demo_host demo_settings))).
Proof.
  apply Forall_forall. intros c Hin Hop.
  apply (noise_never_staged_or_removed demo_host demo_settings "public"
           (row ".DS_Store" 0 2 0) c).
  - exact demo_joins_apart.
  - left; reflexivity.
  - cbn. right; left; reflexivity.
  - reflexivity.
  - exact Hin.
  - exact Hop.
Defined.

(** ** The two subdirectories in sequence *)

Lemma In_Issue_issued (c : call) (t : list event) :
  In (Issue c) t <-> In c (issued t).
Proof.
  unfold issued. rewrite in_flat_map. split.
  - intro H. exists (Issue c). split; [exact H|left; reflexivity].
  - intros [ev [Hev Hc]]. destruct ev as [m d|c'|c' r]; simpl in Hc;
      try contradiction. destruct Hc as [->|[]]. exact Hev.
Qed.

Lemma split_at_unique {A} (x : A) (a b pre post : list A) :
  ~ In x a -> ~ In x b -> a ++ x :: b = pre ++ x :: post -> pre = a.
Proof.
  revert pre. induction a as [|y a IH]; intros [|z pre] Ha Hb Heq; simpl in *.
  - reflexivity.
  - inversion Heq; subst. exfalso. apply Hb, in_or_app. right. left. reflexivity.
  - inversion Heq; subst. exfalso. apply Ha. left. reflexivity.
  - inversion Heq; subst. f_equal. apply IH; [tauto|exact Hb|assumption].
Qed.

Section Sequence.

Variable h : host.
Variable settings : GithubBlogSyncPluginSettings.

Local Abbreviation dir := (sync_dir h settings).

Hypothesis apart : path_join h dir "public" <> path_join h dir "content".

Lemma content_status_not_in_public :
  ~ In (Issue (StatusMatrix (path_join h dir "content"))) (fst (stage h dir "public")).
Proof.
  rewrite In_Issue_issued, stage_issued_any. intros [H|H].
  - inversion H. apply apart. assumption.
  - apply in_map_iff in H. destruct H as [r [H _]].
    pose proof (operation_is_stage_operation h dir "public" r) as Hop.
    rewrite H in Hop. discriminate.
Qed.

(** A run that starts the status computation of ["content"] has, before
    it, the start notice and the whole successful ["public"] step. *)
Lemma before_content_status (pre post : list event) :
  fst (SyncBlog h settings)
  = pre ++ Issue (StatusMatrix (path_join h dir "content")) :: post ->
  snd (stage h dir "public") = inr tt
  /\ pre = start_notice :: fst (stage h dir "public").
Proof.
  intro Hsplit. destruct (SyncBlog_shape h settings) as [closing [Ht Hc]].
  rewrite Ht in Hsplit.
  destruct (stage_yields h dir "public") as [[e He]|Hok].
  - exfalso. rewrite (staging_public_rejected h settings e He) in Hsplit.
    cbn [fst] in Hsplit.
    assert (Hin : In (Issue (StatusMatrix (path_join h dir "content")))
                     (start_notice :: fst (stage h dir "public") ++ closing)).
    { rewrite Hsplit. apply in_or_app. right. left. reflexivity. }
    destruct Hin as [Hin|Hin]; [discriminate|].
    apply in_app_or in Hin. destruct Hin as [Hin|Hin].
    + exact (content_status_not_in_public Hin).
    + apply In_Issue_issued in Hin. rewrite Forall_forall in Hc.
      apply Hc in Hin. discriminate.
  - split; [exact Hok|].
    rewrite (staging_public_fulfilled h settings tt Hok) in Hsplit.
    cbn [fst] in Hsplit.
    assert (Hhead : exists rest,
               fst (stage h dir "content")
               = Issue (StatusMatrix (path_join h dir "content")) :: rest
               /\ issued rest
                  = map (operation h dir "content")
                        (filter quiet (reported h dir "content"))).
    { pose proof (stage_issued_any h dir "content") as Hi.
      destruct (git_statusMatrix h (path_join h dir "content")) as [e|rows] eqn:E.
      - rewrite (stage_status_rejected h dir "content" e E) in *.
        eexists; split; [reflexivity|]. cbn in Hi. inversion Hi. reflexivity.
      - rewrite (stage_status_reported h dir "content" rows E) in *.
        eexists; split; [reflexivity|]. cbn in Hi. inversion Hi. reflexivity. }
    destruct Hhead as [rest [Hrest Hissued]]. rewrite Hrest in Hsplit.
    apply (split_at_unique (Issue (StatusMatrix (path_join h dir "content")))
             (start_notice :: fst (stage h dir "public")) (rest ++ closing) pre post).
    + intros [Hin|Hin]; [discriminate|exact (content_status_not_in_public Hin)].
    + rewrite In_Issue_issued, issued_app, Hissued. intro Hin.
      apply in_app_or in Hin. destruct Hin as [Hin|Hin].
      * apply in_map_iff in Hin. destruct Hin as [r [H _]].
        pose proof (operation_is_stage_operation h dir "content" r) as Hop.
        rewrite H in Hop. discriminate.
      * rewrite Forall_forall in Hc. apply Hc in Hin. discriminate.
    + rewrite <- Hsplit. cbn. rewrite <- app_assoc. reflexivity.
Qed.

End Sequence.

(** C10.  The two watched subdirectories are processed one after the
    other.  When the status computation of ["content"] starts, every
    operation of a reported ["public"] path has been issued and has then
    settled, fulfilled; and when an operation of a reported ["public"] path
    rejects, the calls of the run are the ["public"] status call and the
    ["public"] operations and nothing else, so that the status computation
    of ["content"] never starts.  (The two subdirectories are taken to be
    different directories.) *)
Theorem public_settles_before_content
  (h : host) (settings : GithubBlogSyncPluginSettings) :
  path_join h (sync_dir h settings) "public"
  <> path_join h (sync_dir h settings) "content" ->
  (forall pre post r,
      fst (SyncBlog h settings)
      = pre ++ Issue (StatusMatrix (path_join h (sync_dir h settings) "content"))
            :: post ->
      In r (reported h (sync_dir h settings) "public") ->
      quiet r = true ->
      exists t1 t2 t3,
        pre = t1 ++ Issue (operation h (sync_dir h settings) "public" r)
                 :: t2 ++ Settle (operation h (sync_dir h settings) "public" r) None
                 :: t3)
  /\ (forall r,
        In r (reported h (sync_dir h settings) "public") ->
        quiet r = true ->
        rejection_of (operation_settlement h (sync_dir h settings) "public" r)
        <> None ->
        issued (fst (SyncBlog h settings))
        = StatusMatrix (path_join h (sync_dir h settings) "public")
            :: map (operation h (sync_dir h settings) "public")
                   (filter quiet (reported h (sync_dir h settings) "public"))
        /\ ~ In (Issue (StatusMatrix (path_join h (sync_dir h settings) "content")))
                (fst (SyncBlog h settings))).
Proof.
  intro apart. split.
  - intros pre post r Hsplit Hr Hq.
    destruct (before_content_status h settings apart pre post Hsplit) as [Hok ->].
    unfold reported in Hr.
    destruct (git_statusMatrix h (path_join h (sync_dir h settings) "public"))
      as [e|rows] eqn:E; [contradiction|].
    pose proof (stage_fulfilled_inv h _ _ rows E tt Hok) as Hall.
    rewrite (stage_fulfilled h _ _ rows E Hall). cbn [fst].
    assert (Hin : In r (filter quiet rows)) by (apply filter_In; split; assumption).
    destruct (in_split _ _ Hin) as [a [b Hab]].
    assert (Hp : In (operation h (sync_dir h settings) "public" r,
                     operation_settlement h (sync_dir h settings) "public" r)
                    (settle_order (in_flight h (sync_dir h settings) "public" rows))).
    { apply (proj2 (settle_order_In _ _)). unfold in_flight. apply in_map_iff.
      exists r. split; [reflexivity|exact Hin]. }
    destruct (in_split _ _ Hp) as [x [y Hxy]].
    rewrite Hxy, Hab. rewrite !map_app. cbn [map fst].
    exists (start_notice
              :: Issue (StatusMatrix (path_join h (sync_dir h settings) "public"))
              :: Settle (StatusMatrix (path_join h (sync_dir h settings) "public")) None
              :: map Issue (map (operation h (sync_dir h settings) "public") a)),
           (map Issue (map (operation h (sync_dir h settings) "public") b)
              ++ map (fun p => Settle (fst p) None) x),
           (map (fun p => Settle (fst p) None) y).
    cbn. rewrite <- ?app_assoc. cbn. reflexivity.
  - intros r Hr Hq Hrej.
    assert (Hrows : git_statusMatrix h (path_join h (sync_dir h settings) "public")
                    = inr (reported h (sync_dir h settings) "public")).
    { unfold reported in *.
      destruct (git_statusMatrix h (path_join h (sync_dir h settings) "public"));
        [contradiction|reflexivity]. }
    destruct (stage_some_rejected h _ _ _ Hrows r Hr Hq Hrej) as [e He].
    pose proof (issued_public_rejected h settings e He) as Hi.
    rewrite stage_issued_any in Hi. split; [exact Hi|].
    rewrite In_Issue_issued, Hi. intros [H|H].
    + inversion H. apply apart. assumption.
    + apply in_map_iff in H. destruct H as [r' [H _]].
      pose proof (operation_is_stage_operation h (sync_dir h settings) "public" r') as Hop.
      rewrite H in Hop. discriminate.
Qed.

Lemma posix_subdirectories_apart statusMatrix add remove commit push branch :
  let h := posix_host statusMatrix add remove commit push branch in
  path_join h (sync_dir h demo_settings) "public"
  <> path_join h (sync_dir h demo_settings) "content".
Proof. cbn. discriminate. Qed.

Lemma public_settles_before_content_witness :
  (exists t1 t2 t3,
      [ start_notice;
        Issue (StatusMatrix "/vault/blog/public");
        Settle (StatusMatrix "/vault/blog/public") None;
        Issue (Add "/vault/blog" "public/index.html");
        Issue (Remove "/vault/blog" "public/old.html");
        Settle (Remove "/vault/blog" "public/old.html") None;
        Settle (Add "/vault/blog" "public/index.html") None ]
      = t1 ++ Issue (Add "/vault/blog" "public/index.html")
           :: t2 ++ Settle (Add "/vault/blog" "public/index.html") None :: t3)
  /\ (issued (fst (SyncBlog readonly_host demo_settings))
      = [ StatusMatrix "/vault/blog/public";
          Add "/vault/blog" "public/index.html";
          Remove "/vault/blog" "public/old.html" ]
      /\ ~ In (Issue (StatusMatrix "/vault/blog/content"))
              (fst (SyncBlog readonly_host demo_settings))).
Proof.
  split.
  - apply (proj1 (public_settles_before_content demo_host demo_settings
                    (posix_subdirectories_apart _ _ _ _ _ _))
             _
             [ Settle (StatusMatrix "/vault/blog/content") None;
               Issue (Add "/vault/blog" "content/post.md");
               Settle (Add "/vault/blog" "content/post.md") None;
               Issue (Commit (commit_call demo_host "/vault/blog" "Kutay"
                                          "kutay@example.org"));
               Settle (Commit (commit_call demo_host "/vault/blog" "Kutay"
                                           "kutay@example.org")) None;
               Issue (Push (push_call "/vault/blog" "github.com/mkutay/blog"
                                      "ghp_0123456789"));
               Settle (Push (push_call "/vault/blog" "github.com/mkutay/blog"
                                       "ghp_0123456789")) None;
               Notice "GitHub Blog Sync: Pushed to github.com/mkutay/blog" None ]
             (row "index.html" 1 2 1)).
    + reflexivity.
    + left; reflexivity.
    + reflexivity.
  - apply (proj2 (public_settles_before_content readonly_host demo_settings
                    (posix_subdirectories_apart _ _ _ _ _ _))
             (row "index.html" 1 2 1)).
    + left; reflexivity.
    + reflexivity.
    + discriminate.
Defined.

(** ** Failures *)

Section StagingTrace.

Variable h : host.
Variable dir : string.

Lemma stage_issues_staging_calls (sub : string) :
  Forall (fun c => is_staging_call c = true) (issued (fst (stage h dir sub))).
Proof.
  rewrite stage_issued_any. constructor; [reflexivity|].
  apply Forall_forall. intros c Hc. apply in_map_iff in Hc.
  destruct Hc as [r [<- _]]. unfold operation.
  destruct (row_workdir r =? 0)%Z; reflexivity.
Qed.

Lemma staging_trace :
  (exists e, snd (stage h dir "public") = inl e
             /\ staging h dir = (fst (stage h dir "public"), inl e))
  \/ (snd (stage h dir "public") = inr tt
      /\ staging h dir
         = (fst (stage h dir "public") ++ fst (stage h dir "content"),
            snd (stage h dir "content"))).
Proof.
  destruct (stage_yields h dir "public") as [[e He]|Hok].
  - left. exists e. split; [exact He|].
    unfold staging. apply bind_rejected. exact He.
  - right. split; [exact Hok|].
    unfold staging. apply bind_fulfilled with (a := tt). exact Hok.
Qed.

Lemma staging_issues_staging_calls :
  Forall (fun c => is_staging_call c = true) (issued (fst (staging h dir))).
Proof.
  destruct staging_trace as [[e [_ ->]]|[_ ->]]; cbn [fst].
  - apply stage_issues_staging_calls.
  - rewrite issued_app. apply Forall_app. split; apply stage_issues_staging_calls.
Qed.

Lemma staging_shows_nothing : notices (fst (staging h dir)) = [].
Proof.
  destruct staging_trace as [[e [_ ->]]|[_ ->]]; cbn [fst].
  - apply stage_shows_nothing.
  - rewrite notices_app, !stage_shows_nothing. reflexivity.
Qed.

End StagingTrace.

Lemma staging_call_not_later (c : call) :
  is_staging_call c = true -> is_commit c = false /\ is_push c = false.
Proof. destruct c; simpl; intro H; try discriminate; split; reflexivity. Qed.

(** C4.  Each step has its own failure boundary.  When the staging step
    throws [e], the run is the start notice, the staging calls made so far
    and one notice, shown for 10000 ms, of the staging prefix followed by the
    description of [e]; it returns [e]; no commit and no push is issued.
    When staging succeeds and the commit rejects with [e], the run ends with
    the single commit call, its rejection and the commit notice, and returns
    [e]; no push is issued.  When the commit succeeds and the push rejects
    with [e], the run ends with the commit call, the single push call, its
    rejection and the push notice, and returns [e].  In each case nothing
    follows the notice: no call is repeated and none undoes an earlier
    step. *)
Theorem step_failure_reported_and_returned
  (h : host) (settings : GithubBlogSyncPluginSettings) :
  let dir := sync_dir h settings in
  let commit_arg := commit_call h dir (nameOfCommit settings) (emailOfCommit settings) in
  let push_arg :=
    push_call dir (githubRepoUrl settings) (githubPersonalAccessToken settings) in
  (forall e,
      snd (staging h dir) = inl e ->
      SyncBlog h settings
      = (Notice "Will push to repository" None
           :: fst (staging h dir)
           ++ [Notice ("Couldn't add updated files. Problem: " ++ error_toString e)%string
                      (Some 10000%Z)],
         inr (Some e))
      /\ Forall (fun c => is_commit c = false /\ is_push c = false)
                (issued (fst (SyncBlog h settings))))
  /\ (forall e,
        snd (staging h dir) = inr tt ->
        git_commit h commit_arg = Some e ->
        SyncBlog h settings
        = (Notice "Will push to repository" None
             :: fst (staging h dir)
             ++ [Issue (Commit commit_arg);
                 Settle (Commit commit_arg) (Some e);
                 Notice ("Couldn't commit changes to the branch. Problem: "
                         ++ error_toString e)%string (Some 10000%Z)],
           inr (Some e))
        /\ Forall (fun c => is_push c = false) (issued (fst (SyncBlog h settings))))
  /\ (forall e,
        snd (staging h dir) = inr tt ->
        git_commit h commit_arg = None ->
        git_push h push_arg = Some e ->
        SyncBlog h settings
        = (Notice "Will push to repository" None
             :: fst (staging h dir)
             ++ [Issue (Commit commit_arg);
                 Settle (Commit commit_arg) None;
                 Issue (Push push_arg);
                 Settle (Push push_arg) (Some e);
                 Notice ("Couldn't push changes to the repository. Problem: "
                         ++ error_toString e)%string (Some 10000%Z)],
           inr (Some e))).
Proof.
  intros dir commit_arg push_arg.
  pose proof (staging_issues_staging_calls h dir) as Hst.
  assert (Hlater : Forall (fun c => is_commit c = false /\ is_push c = false)
                          (issued (fst (staging h dir)))).
  { eapply Forall_impl; [|exact Hst]. intros c Hc. apply staging_call_not_later, Hc. }
  split; [|split].
  - intros e He. rewrite (SyncBlog_staging_failed h settings e He).
    split; [reflexivity|]. cbn. rewrite issued_app. cbn. rewrite app_nil_r.
    exact Hlater.
  - intros e Hs Hc. rewrite (SyncBlog_commit_failed h settings tt e Hs Hc).
    split; [reflexivity|]. cbn. rewrite issued_app. apply Forall_app. split.
    + eapply Forall_impl; [|exact Hlater]. intros c Hcl. apply Hcl.
    + cbn. repeat constructor.
  - intros e Hs Hc Hp. rewrite (SyncBlog_push_failed h settings tt e Hs Hc Hp).
    reflexivity.
Qed.

Lemma step_failure_reported_and_returned_witness :
  (notices (fst (SyncBlog readonly_host demo_settings))
   = [ ("Will push to repository", None);
       ("Couldn't add updated files. Problem: Error: EACCES: permission denied",
        Some 10000%Z) ]
   /\ snd (SyncBlog readonly_host demo_settings) = inr (Some EACCES))
  /\ (notices (fst (SyncBlog anonymous_host demo_settings))
      = [ ("Will push to repository", None);
          ("Couldn't commit changes to the branch. Problem: MissingNameError: No name was provided for author in the argument or in the .git/config file.",
           Some 10000%Z) ]
      /\ snd (SyncBlog anonymous_host demo_settings) = inr (Some MissingNameError))
  /\ (notices (fst (SyncBlog unauthorized_host demo_settings))
      = [ ("Will push to repository", None);
          ("Couldn't push changes to the repository. Problem: HttpError: HTTP Error: 401 Unauthorized",
           Some 10000%Z) ]
      /\ snd (SyncBlog unauthorized_host demo_settings) = inr (Some HttpError)).
Proof.
  split; [|split].
  - pose proof (proj1 (proj1 (step_failure_reported_and_returned
                                readonly_host demo_settings) EACCES eq_refl)) as H.
    split; [exact (f_equal (fun r => notices (fst r)) H)|exact (f_equal snd H)].
  - pose proof (proj1 (proj1 (proj2 (step_failure_reported_and_returned
                                       anonymous_host demo_settings))
                             MissingNameError eq_refl eq_refl)) as H.
    split; [exact (f_equal (fun r => notices (fst r)) H)|exact (f_equal snd H)].
  - pose proof (proj2 (proj2 (step_failure_reported_and_returned
                                unauthorized_host demo_settings))
                      HttpError eq_refl eq_refl eq_refl) as H.
    split; [exact (f_equal (fun r => notices (fst r)) H)|exact (f_equal snd H)].
Defined.

(** C5.  When the operation of one reported, quiet path of a watched
    subdirectory rejects (the subdirectory's status computation having been
    reached), the staging step fails: the run returns the rejection [e] of an
    operation of that subdirectory, its notices are the start notice and the
    staging failure notice with the description of [e], and neither a commit
    nor a push is issued. *)
Theorem operation_failure_is_staging_failure
  (h : host) (settings : GithubBlogSyncPluginSettings)
  (sub : string) (rows : list status_row) (r : status_row) :
  sub = "public"
  \/ (sub = "content" /\ snd (stage h (sync_dir h settings) "public") = inr tt) ->
  git_statusMatrix h (path_join h (sync_dir h settings) sub) = inr rows ->
  In r rows ->
  includes (row_filepath r) ".DS_Store" = false ->
  rejection_of (operation_settlement h (sync_dir h settings) sub r) <> None ->
  exists e r',
    In r' rows
    /\ rejection_of (operation_settlement h (sync_dir h settings) sub r') = Some e
    /\ snd (SyncBlog h settings) = inr (Some e)
    /\ notices (fst (SyncBlog h settings))
       = [ ("Will push to repository", None);
           (("Couldn't add updated files. Problem: " ++ error_toString e)%string,
            Some 10000%Z) ]
    /\ Forall (fun c => is_commit c = false /\ is_push c = false)
              (issued (fst (SyncBlog h settings))).
Proof.
  intros Hsub Hrows Hr Hnoise Hrej.
  assert (Hq : quiet r = true) by (unfold quiet, noise; rewrite Hnoise; reflexivity).
  destruct (stage_some_rejected h _ sub rows Hrows r Hr Hq Hrej) as [e He].
  destruct (stage_rejected_inv h _ sub rows Hrows e He) as [r' [Hr' [_ Hrej']]].
  assert (Hst : snd (staging h (sync_dir h settings)) = inl e).
  { destruct Hsub as [->|[-> Hpub]].
    - rewrite (staging_public_rejected h settings e He). reflexivity.
    - rewrite (staging_public_fulfilled h settings tt Hpub). exact He. }
  exists e, r'. split; [exact Hr'|]. split; [exact Hrej'|].
  rewrite (SyncBlog_staging_failed h settings e Hst). cbn [fst snd].
  split; [reflexivity|]. split.
  - cbn. rewrite notices_app, staging_shows_nothing. reflexivity.
  - cbn. rewrite issued_app. cbn. rewrite app_nil_r.
    eapply Forall_impl; [|apply staging_issues_staging_calls].
    intros c Hc. apply staging_call_not_later, Hc.
Qed.

Lemma operation_failure_is_staging_failure_witness :
  exists e r',
    In r' [row "index.html" 1 2 1; row ".DS_Store" 0 2 0; row "old.html" 1 0 1]
    /\ rejection_of (operation_settlement readonly_host "/vault/blog" "public" r')
       = Some e
    /\ snd (SyncBlog readonly_host demo_settings) = inr (Some e)
    /\ notices (fst (SyncBlog readonly_host demo_settings))
       = [ ("Will push to repository", None);
           (("Couldn't add updated files. Problem: " ++ error_toString e)%string,
            Some 10000%Z) ]
    /\ Forall (fun c => is_commit c = false /\ is_push c = false)
              (issued (fst (SyncBlog readonly_host demo_settings))).
Proof.
  apply (operation_failure_is_staging_failure readonly_host demo_settings "public"
           [row "index.html" 1 2 1; row ".DS_Store" 0 2 0; row "old.html" 1 0 1]
           (row "index.html" 1 2 1)).
  - left; reflexivity.
  - reflexivity.
  - left; reflexivity.
  - reflexivity.
  - discriminate.
Defined.

(** ** The commit step *)

Lemma staging_calls_no_commit (l : list call) :
  Forall (fun c => is_staging_call c = true) l -> filter is_commit l = [].
Proof.
  induction 1 as [|c l Hc _ IH]; simpl; [reflexivity|].
  destruct c; simpl in *; try discriminate; exact IH.
Qed.

Lemma staging_calls_no_push (l : list call) :
  Forall (fun c => is_staging_call c = true) l -> filter is_push l = [].
Proof.
  induction 1 as [|c l Hc _ IH]; simpl; [reflexivity|].
  destruct c; simpl in *; try discriminate; exact IH.
Qed.

(** The calls of a run whose staging step succeeded: the staging calls,
    the commit, and the push when the commit was created. *)
Lemma issued_after_staging
  (h : host) (settings : GithubBlogSyncPluginSettings) :
  let dir := sync_dir h settings in
  let commit_arg := commit_call h dir (nameOfCommit settings) (emailOfCommit settings) in
  let push_arg :=
    push_call dir (githubRepoUrl settings) (githubPersonalAccessToken settings) in
  snd (staging h dir) = inr tt ->
  issued (fst (SyncBlog h settings))
  = issued (fst (staging h dir))
      ++ Commit commit_arg
      :: match git_commit h commit_arg with
         | Some _ => []
         | None => [Push push_arg]
         end.
Proof.
  intros dir commit_arg push_arg Hs.
  destruct (git_commit h commit_arg) as [e|] eqn:Hc.
  - rewrite (SyncBlog_commit_failed h settings tt e Hs Hc). cbn.
    rewrite issued_app. reflexivity.
  - destruct (git_push h push_arg) as [e|] eqn:Hp.
    + rewrite (SyncBlog_push_failed h settings tt e Hs Hc Hp). cbn.
      rewrite issued_app. reflexivity.
    + rewrite (SyncBlog_pushed h settings tt Hs Hc Hp). cbn.
      rewrite issued_app. reflexivity.
Qed.

Lemma commit_call_issued
  (h : host) (settings : GithubBlogSyncPluginSettings) :
  snd (staging h (sync_dir h settings)) = inr tt ->
  filter is_commit (issued (fst (SyncBlog h settings)))
  = [ Commit (commit_call h (sync_dir h settings) (nameOfCommit settings)
                          (emailOfCommit settings)) ].
Proof.
  intro Hs. rewrite (issued_after_staging h settings Hs).
  rewrite filter_app, (staging_calls_no_commit _ (staging_issues_staging_calls h _)).
  cbn. destruct (git_commit h _); reflexivity.
Qed.

Lemma commit_settled
  (h : host) (settings : GithubBlogSyncPluginSettings) :
  snd (staging h (sync_dir h settings)) = inr tt ->
  In (Settle (Commit (commit_call h (sync_dir h settings) (nameOfCommit settings)
                                  (emailOfCommit settings)))
             (git_commit h (commit_call h (sync_dir h settings) (nameOfCommit settings)
                                        (emailOfCommit settings))))
     (fst (SyncBlog h settings)).
Proof.
  intro Hs.
  destruct (git_commit h (commit_call h (sync_dir h settings) (nameOfCommit settings)
                                      (emailOfCommit settings))) as [e|] eqn:Hc.
  - rewrite (SyncBlog_commit_failed h settings tt e Hs Hc). cbn [fst].
    right. apply in_or_app. right. right. left. reflexivity.
  - destruct (git_push h (push_call (sync_dir h settings) (githubRepoUrl settings)
                                    (githubPersonalAccessToken settings)))
      as [e|] eqn:Hp.
    + rewrite (SyncBlog_push_failed h settings tt e Hs Hc Hp). cbn [fst].
      right. apply in_or_app. right. right. left. reflexivity.
    + rewrite (SyncBlog_pushed h settings tt Hs Hc Hp). cbn [fst].
      right. apply in_or_app. right. right. left. reflexivity.
Qed.

(** C2.  Once staging has succeeded, the run issues exactly one commit
    call, in the configured root, with the configured author name and email
    as they are and with the host name, one space and the formatted current
    date as message; when the call fulfils, that one commit is created.  The
    call gives ["main"] as [ref], which is not the fully expanded name of the
    branch [main]: the ref moved to the new commit is [main] under the git
    directory, and the branch [refs/heads/main] is not the one committed
    on. *)
Theorem commit_step_misses_branch_main
  (h : host) (settings : GithubBlogSyncPluginSettings) :
  snd (staging h (sync_dir h settings)) = inr tt ->
  exists a,
    filter is_commit (issued (fst (SyncBlog h settings))) = [Commit a]
    /\ commit_dir a = path_join h (getBasePath h) (gitDirLocation settings)
    /\ commit_message a = (os_hostname h ++ " " ++ date_toString h)%string
    /\ commit_author_of a
       = {| author_name := nameOfCommit settings;
            author_email := emailOfCommit settings |}
    /\ commit_ref a = "main"
    /\ In (Settle (Commit a) (git_commit h a)) (fst (SyncBlog h settings))
    /\ committed_ref a = "main"
    /\ committed_ref a <> branch_ref "main".
Proof.
  intro Hs. eexists. split; [apply (commit_call_issued h settings Hs)|].
  repeat split; try apply (commit_settled h settings Hs).
  cbn. discriminate.
Qed.

Lemma commit_step_misses_branch_main_witness :
  exists a,
    filter is_commit (issued (fst (SyncBlog demo_host demo_settings))) = [Commit a]
    /\ commit_dir a = "/vault/blog"
    /\ commit_message a
       = "laptop Mon Nov 02 2026 10:00:00 GMT+0000 (Coordinated Universal Time)"
    /\ commit_author_of a
       = {| author_name := "Kutay"; author_email := "kutay@example.org" |}
    /\ commit_ref a = "main"
    /\ In (Settle (Commit a) None) (fst (SyncBlog demo_host demo_settings))
    /\ committed_ref a = "main"
    /\ committed_ref a <> "refs/heads/main".
Proof.
  exact (commit_step_misses_branch_main demo_host demo_settings eq_refl).
Defined.

(** ** The push step *)

Lemma push_call_issued
  (h : host) (settings : GithubBlogSyncPluginSettings) :
  snd (staging h (sync_dir h settings)) = inr tt ->
  git_commit h (commit_call h (sync_dir h settings) (nameOfCommit settings)
                            (emailOfCommit settings)) = None ->
  filter is_push (issued (fst (SyncBlog h settings)))
  = [ Push (push_call (sync_dir h settings) (githubRepoUrl settings)
                      (githubPersonalAccessToken settings)) ].
Proof.
  intros Hs Hc. rewrite (issued_after_staging h settings Hs), Hc.
  rewrite filter_app, (staging_calls_no_push _ (staging_issues_staging_calls h _)).
  reflexivity.
Qed.

(** C3, counterexample: with the branch [drafts] checked out, the push call
    names no branch and so pushes [drafts]. *)
Lemma drafts_pushed_not_main : ~ pushes_fixed_branch drafts_host demo_settings.
Proof.
  intro H. destruct (H eq_refl eq_refl) as [a [Hpush [Hbranch _]]].
  rewrite (push_call_issued drafts_host demo_settings eq_refl eq_refl) in Hpush.
  inversion Hpush; subst a. cbn in Hbranch. discriminate.
Qed.

(** C3, amended.  Once the commit is created, the run issues exactly one
    push call: in the configured root, to [https://] followed by the
    configured repository path, naming no branch, so that the checked out
    branch is the one pushed, and answering the authentication request with
    the token as user name and no password, which makes the basic-auth
    password empty. *)
Theorem push_step_call
  (h : host) (settings : GithubBlogSyncPluginSettings) :
  snd (staging h (sync_dir h settings)) = inr tt ->
  git_commit h (commit_call h (sync_dir h settings) (nameOfCommit settings)
                            (emailOfCommit settings)) = None ->
  exists a,
    filter is_push (issued (fst (SyncBlog h settings))) = [Push a]
    /\ push_dir a = path_join h (getBasePath h) (gitDirLocation settings)
    /\ push_ref a = None
    /\ pushed_branch h a = checked_out_branch h
    /\ push_url a = ("https://" ++ githubRepoUrl settings)%string
    /\ push_onAuth a
       = {| auth_username := Some (githubPersonalAccessToken settings);
            auth_password := None |}
    /\ basic_auth (push_onAuth a) = (githubPersonalAccessToken settings, "").
Proof.
  intros Hs Hc. eexists. split; [apply (push_call_issued h settings Hs Hc)|].
  repeat split.
Qed.

Lemma push_step_call_witness :
  exists a,
    filter is_push (issued (fst (SyncBlog drafts_host demo_settings))) = [Push a]
    /\ push_dir a = "/vault/blog"
    /\ push_ref a = None
    /\ pushed_branch drafts_host a = "drafts"
    /\ push_url a = "https://github.com/mkutay/blog"
    /\ push_onAuth a
       = {| auth_username := Some "ghp_0123456789"; auth_password := None |}
    /\ basic_auth (push_onAuth a) = ("ghp_0123456789", "").
Proof.
  exact (push_step_call drafts_host demo_settings eq_refl eq_refl).
Defined.

(** ** A working tree without changes *)

Lemma clean_host_unchanged : unchanged_tree clean_host (sync_dir clean_host demo_settings).
Proof.
  intros sub [->| ->]; eexists; split; reflexivity.
Qed.

(** C6, counterexample: a checkout with one unmodified file in each watched
    subdirectory.  Each is reported with worktree status 1, and each is
    staged. *)
Lemma unchanged_files_are_staged :
  ~ nothing_staged_commit_fails clean_host demo_settings.
Proof.
  intro H. destruct (H clean_host_unchanged) as [Hops _].
  vm_compute in Hops. discriminate Hops.
Qed.

Lemma unmodified_workdir (r : status_row) :
  unmodified r = true -> (row_workdir r =? 0)%Z = false.
Proof.
  unfold unmodified. intro H.
  apply andb_prop in H. destruct H as [H _].
  apply andb_prop in H. destruct H as [_ H].
  apply Z.eqb_eq in H. rewrite H. reflexivity.
Qed.

Lemma unmodified_operations (h : host) (dir sub : string) (rows : list status_row) :
  forallb unmodified rows = true ->
  map (operation h dir sub) (filter quiet rows)
  = map (fun r => Add dir (path_join h sub (row_filepath r))) (filter quiet rows).
Proof.
  intro H. apply map_ext_in. intros r Hr. apply filter_In in Hr.
  destruct Hr as [Hr _]. rewrite forallb_forall in H.
  unfold operation. rewrite (unmodified_workdir r (H r Hr)). reflexivity.
Qed.

Lemma unmodified_in_flight_fulfil (h : host) (dir sub : string) (rows : list status_row) :
  forallb unmodified rows = true ->
  (forall d f, rejection_of (git_add h d f) = None) ->
  Forall fulfils (in_flight h dir sub rows).
Proof.
  intros H Hadd. unfold in_flight. apply Forall_forall. intros p Hp.
  apply in_map_iff in Hp. destruct Hp as [r [<- Hr]].
  apply filter_In in Hr. destruct Hr as [Hr _]. rewrite forallb_forall in H.
  unfold fulfils, operation_settlement. cbn.
  rewrite (unmodified_workdir r (H r Hr)). apply Hadd.
Qed.

(** The user-visible outcome of a run: its notices and its value. *)
Lemma SyncBlog_outcome (h : host) (settings : GithubBlogSyncPluginSettings) :
  let dir := sync_dir h settings in
  let commit_arg := commit_call h dir (nameOfCommit settings) (emailOfCommit settings) in
  let push_arg :=
    push_call dir (githubRepoUrl settings) (githubPersonalAccessToken settings) in
  (notices (fst (SyncBlog h settings)), snd (SyncBlog h settings))
  = match snd (staging h dir) with
    | inl e =>
        ([ ("Will push to repository", None);
           (("Couldn't add updated files. Problem: " ++ error_toString e)%string,
            Some 10000%Z) ], inr (Some e))
    | inr _ =>
        match git_commit h commit_arg with
        | Some e =>
            ([ ("Will push to repository", None);
               (("Couldn't commit changes to the branch. Problem: "
                 ++ error_toString e)%string, Some 10000%Z) ], inr (Some e))
        | None =>
            match git_push h push_arg with
            | Some e =>
                ([ ("Will push to repository", None);
                   (("Couldn't push changes to the repository. Problem: "
                     ++ error_toString e)%string, Some 10000%Z) ], inr (Some e))
            | None =>
                ([ ("Will push to repository", None);
                   (("GitHub Blog Sync: Pushed to " ++ githubRepoUrl settings)%string,
                    None) ], inr None)
            end
        end
    end.
Proof.
  intros dir commit_arg push_arg.
  destruct (snd (staging h dir)) as [e|[]] eqn:Hs.
  - rewrite (SyncBlog_staging_failed h settings e Hs). cbn.
    rewrite notices_app, staging_shows_nothing. reflexivity.
  - destruct (git_commit h commit_arg) as [e|] eqn:Hc.
    + rewrite (SyncBlog_commit_failed h settings tt e Hs Hc). cbn.
      rewrite notices_app, staging_shows_nothing. reflexivity.
    + destruct (git_push h push_arg) as [e|] eqn:Hp.
      * rewrite (SyncBlog_push_failed h settings tt e Hs Hc Hp). cbn.
        rewrite notices_app, staging_shows_nothing. reflexivity.
      * rewrite (SyncBlog_pushed h settings tt Hs Hc Hp). cbn.
        rewrite notices_app, staging_shows_nothing. reflexivity.
Qed.

(** C6, amended.  On a working tree without changes (both status
    computations report unmodified rows only) whose stages succeed, the
    staging step issues no index removal and one stage for every reported
    path that is not noise, unchanged as it is: none only when no such path is
    reported.  The commit call is then made once, whatever was staged; when
    it rejects, the run returns the error, shows it in the commit notice and
    pushes nothing; when it fulfils, the push is issued. *)
Theorem unchanged_tree_restaged
  (h : host) (settings : GithubBlogSyncPluginSettings)
  (public_rows content_rows : list status_row) :
  let dir := sync_dir h settings in
  let commit_arg := commit_call h dir (nameOfCommit settings) (emailOfCommit settings) in
  let push_arg :=
    push_call dir (githubRepoUrl settings) (githubPersonalAccessToken settings) in
  git_statusMatrix h (path_join h dir "public") = inr public_rows ->
  git_statusMatrix h (path_join h dir "content") = inr content_rows ->
  forallb unmodified public_rows = true ->
  forallb unmodified content_rows = true ->
  (forall d f, rejection_of (git_add h d f) = None) ->
  filter is_stage_operation (issued (fst (SyncBlog h settings)))
  = map (fun r => Add dir (path_join h "public" (row_filepath r)))
        (filter quiet public_rows)
    ++ map (fun r => Add dir (path_join h "content" (row_filepath r)))
           (filter quiet content_rows)
  /\ filter is_commit (issued (fst (SyncBlog h settings))) = [Commit commit_arg]
  /\ (forall e,
        git_commit h commit_arg = Some e ->
        snd (SyncBlog h settings) = inr (Some e)
        /\ notices (fst (SyncBlog h settings))
           = [ ("Will push to repository", None);
               (("Couldn't commit changes to the branch. Problem: "
                 ++ error_toString e)%string, Some 10000%Z) ]
        /\ filter is_push (issued (fst (SyncBlog h settings))) = [])
  /\ (git_commit h commit_arg = None ->
      filter is_push (issued (fst (SyncBlog h settings))) = [Push push_arg]).
Proof.
  intros dir commit_arg push_arg Hp Hc Hup Huc Hadd.
  pose proof (stage_fulfilled h dir "public" public_rows Hp
                (unmodified_in_flight_fulfil h dir "public" public_rows Hup Hadd)) as Sp.
  pose proof (stage_fulfilled h dir "content" content_rows Hc
                (unmodified_in_flight_fulfil h dir "content" content_rows Huc Hadd)) as Sc.
  assert (Hpub : snd (stage h dir "public") = inr tt) by (rewrite Sp; reflexivity).
  pose proof (staging_public_fulfilled h settings tt Hpub) as Hst. fold dir in Hst.
  assert (Hs : snd (staging h dir) = inr tt) by (rewrite Hst, Sc; reflexivity).
  pose proof (issued_after_staging h settings Hs) as Hi.
  fold dir in Hi. fold commit_arg in Hi. fold push_arg in Hi.
  assert (Hstaged : issued (fst (staging h dir))
                    = StatusMatrix (path_join h dir "public")
                        :: map (operation h dir "public") (filter quiet public_rows)
                        ++ StatusMatrix (path_join h dir "content")
                        :: map (operation h dir "content") (filter quiet content_rows)).
  { rewrite Hst. cbn [fst]. rewrite issued_app.
    rewrite (stage_issued h dir "public" public_rows Hp).
    rewrite (stage_issued h dir "content" content_rows Hc). reflexivity. }
  assert (Hops : forall sub rows,
             Forall (fun c => is_stage_operation c = true)
                    (map (operation h dir sub) (filter quiet rows))).
  { intros sub rows. apply Forall_forall. intros c Hin. apply in_map_iff in Hin.
    destruct Hin as [r [<- _]]. apply operation_is_stage_operation. }
  split; [|split; [|split]].
  - rewrite Hi, Hstaged. rewrite filter_app. cbn [filter is_stage_operation].
    rewrite filter_app. cbn [filter is_stage_operation].
    rewrite !filter_stage_operations by apply Hops.
    rewrite (unmodified_operations h dir "public" public_rows Hup).
    rewrite (unmodified_operations h dir "content" content_rows Huc).
    replace (filter is_stage_operation
               match git_commit h commit_arg with
               | Some _ => []
               | None => [Push push_arg]
               end) with (@nil call) by (destruct (git_commit h commit_arg); reflexivity).
    cbn. rewrite app_nil_r. reflexivity.
  - rewrite Hi, filter_app.
    rewrite (staging_calls_no_commit _ (staging_issues_staging_calls h dir)).
    cbn. destruct (git_commit h commit_arg); reflexivity.
  - intros e He. pose proof (SyncBlog_outcome h settings) as Ho. cbn zeta in Ho.
    fold dir in Ho. fold commit_arg in Ho. rewrite Hs, He in Ho.
    split; [exact (f_equal snd Ho)|]. split; [exact (f_equal fst Ho)|].
    rewrite Hi, He, filter_app.
    rewrite (staging_calls_no_push _ (staging_issues_staging_calls h dir)).
    reflexivity.
  - intro Hnone. rewrite Hi, Hnone, filter_app.
    rewrite (staging_calls_no_push _ (staging_issues_staging_calls h dir)).
    reflexivity.
Qed.

Lemma unchanged_tree_restaged_witness :
  filter is_stage_operation (issued (fst (SyncBlog clean_host demo_settings)))
  = [Add "/vault/blog" "public/index.html"; Add "/vault/blog" "content/post.md"]
  /\ filter is_push (issued (fst (SyncBlog clean_host demo_settings)))
     = [Push (push_call "/vault/blog" "github.com/mkutay/blog" "ghp_0123456789")].
Proof.
  pose proof (unchanged_tree_restaged clean_host demo_settings
                [row "index.html" 1 1 1] [row "post.md" 1 1 1]
                eq_refl eq_refl eq_refl eq_refl (fun _ _ => eq_refl)) as H.
  split; [exact (proj1 H)|exact (proj2 (proj2 (proj2 H)) eq_refl)].
Defined.

(** ** The access token on the user's screen *)

(** C8, counterexample: the form built for a stored token shows it as it
    is. *)
Lemma token_field_shows_cleartext : ~ token_never_in_cleartext demo_settings.
Proof.
  intro H.
  apply (H {| setting_name := "GitHub Personal Access Token";
              setting_desc := "In the format ghp_XXXXXXXXXXXXXXXXXXXXXXXX";
              setting_text := addText "ghp_XXXXXXXXXXXXXXXXXXXXXXXX" "ghp_0123456789" |}).
  - cbn. right; right; left; reflexivity.
  - reflexivity.
  - discriminate.
  - reflexivity.
Qed.

(** C8, amended.  The token field of the settings form, the third of six,
    is a plain text input whose value is the stored token, so the form shows
    the token in cleartext.  The notices of a sync and the value it returns
    are not made from the token: with another token stored, and the push
    answered the same way, they are the same. *)
Theorem token_shown_by_form_only (settings : GithubBlogSyncPluginSettings) :
  (exists f,
      nth_error (display settings) 2 = Some f
      /\ length (display settings) = 6
      /\ setting_name f = "GitHub Personal Access Token"
      /\ inputEl_type (setting_text f) = "text"
      /\ rendered_text (setting_text f) = githubPersonalAccessToken settings)
  /\ (forall h token,
        git_push h (push_call (sync_dir h settings) (githubRepoUrl settings) token)
        = git_push h (push_call (sync_dir h settings) (githubRepoUrl settings)
                                (githubPersonalAccessToken settings)) ->
        notices (fst (SyncBlog h (with_token settings token)))
        = notices (fst (SyncBlog h settings))
        /\ snd (SyncBlog h (with_token settings token)) = snd (SyncBlog h settings)).
Proof.
  split.
  - eexists. split; [reflexivity|]. repeat split.
  - intros h token Hpush.
    pose proof (SyncBlog_outcome h settings) as H1.
    pose proof (SyncBlog_outcome h (with_token settings token)) as H2.
    cbn zeta in H1, H2.
    change (sync_dir h (with_token settings token)) with (sync_dir h settings) in H2.
    change (nameOfCommit (with_token settings token)) with (nameOfCommit settings) in H2.
    change (emailOfCommit (with_token settings token)) with (emailOfCommit settings) in H2.
    change (githubRepoUrl (with_token settings token)) with (githubRepoUrl settings) in H2.
    change (githubPersonalAccessToken (with_token settings token)) with token in H2.
    rewrite Hpush, <- H1 in H2.
    split; [exact (f_equal fst H2)|exact (f_equal snd H2)].
Qed.

Lemma token_shown_by_form_only_witness :
  (exists f,
      nth_error (display demo_settings) 2 = Some f
      /\ length (display demo_settings) = 6
      /\ setting_name f = "GitHub Personal Access Token"
      /\ inputEl_type (setting_text f) = "text"
      /\ rendered_text (setting_text f) = "ghp_0123456789")
  /\ (notices (fst (SyncBlog unauthorized_host (with_token demo_settings "ghp_other")))
      = notices (fst (SyncBlog unauthorized_host demo_settings))
      /\ snd (SyncBlog unauthorized_host (with_token demo_settings "ghp_other"))
         = snd (SyncBlog unauthorized_host demo_settings)).
Proof.
  split.
  - exact (proj1 (token_shown_by_form_only demo_settings)).
  - exact (proj2 (token_shown_by_form_only demo_settings)
             unauthorized_host "ghp_other" eq_refl).
Defined.

(** ** Which paths are skipped *)

Lemma startsWith_iff (p s : string) :
  startsWith p s = true <-> exists b, s = (p ++ b)%string.
Proof.
  revert s. induction p as [|a p IH]; intros s; simpl.
  - split; [intros _; exists s; reflexivity|reflexivity].
  - destruct s as [|c s]; simpl.
    + split; [discriminate|intros [b Hb]; discriminate].
    + rewrite andb_true_iff, Ascii.eqb_eq, IH. split.
      * intros [-> [b ->]]. exists b. reflexivity.
      * intros [b Hb]. inversion Hb. split; [reflexivity|exists b; reflexivity].
Qed.

Lemma includes_iff (s p : string) :
  includes s p = true <-> exists a b, s = (a ++ p ++ b)%string.
Proof.
  split.
  - induction s as [|c s IH]; simpl; rewrite orb_true_iff; intros [H|H].
    + apply startsWith_iff in H. destruct H as [b ->]. exists "", b. reflexivity.
    + discriminate.
    + apply startsWith_iff in H. destruct H as [b ->]. exists "", b. reflexivity.
    + destruct (IH H) as [a [b ->]]. exists (String c a), b. reflexivity.
  - intros [a [b ->]]. induction a as [|c a IH]; simpl.
    + destruct (p ++ b)%string eqn:E; simpl; rewrite orb_true_iff; left;
        apply startsWith_iff; exists b; symmetry; exact E.
    + rewrite orb_true_iff. right. exact IH.
Qed.

(** X1.  The callback of [status.map] returns [undefined], starting no
    operation, exactly for the paths that contain [.DS_Store] anywhere: in
    the file name, in the name of a folder above it, or inside a longer
    name. *)
Theorem callback_skips_paths_containing_token
  (h : host) (dir sub : string) (r : status_row) :
  stage_callback h dir sub r = None
  <-> exists before after,
        row_filepath r = (before ++ ".DS_Store" ++ after)%string.
Proof.
  rewrite <- includes_iff. unfold stage_callback.
  destruct (includes (row_filepath r) ".DS_Store").
  - split; reflexivity.
  - destruct (truthy (row_workdir r)); split; discriminate.
Qed.

(** ** What a run shows and returns *)

(** X2.  A run never throws: every failure is caught and returned.  It
    shows exactly two notices, the start notice and then either the success
    notice naming the repository, with the default duration, when it returns
    [undefined], or one of the three failure notices for 10000 ms, ending in
    the description of the error it returns. *)
Theorem SyncBlog_always_fulfils
  (h : host) (settings : GithubBlogSyncPluginSettings) :
  exists value message duration,
    snd (SyncBlog h settings) = inr value
    /\ notices (fst (SyncBlog h settings))
       = [("Will push to repository", None); (message, duration)]
    /\ match value with
       | None =>
           duration = None
           /\ message = ("GitHub Blog Sync: Pushed to " ++ githubRepoUrl settings)%string
       | Some e =>
           duration = Some 10000%Z
           /\ exists prefix,
                In prefix [ "Couldn't add updated files. Problem: ";
                            "Couldn't commit changes to the branch. Problem: ";
                            "Couldn't push changes to the repository. Problem: " ]
                /\ message = (prefix ++ error_toString e)%string
       end.
Proof.
  pose proof (SyncBlog_outcome h settings) as H. cbn zeta in H.
  destruct (snd (staging h (sync_dir h settings))) as [e|u].
  - exists (Some e). do 2 eexists.
    split; [exact (f_equal snd H)|]. split; [exact (f_equal fst H)|].
    split; [reflexivity|]. eexists. split; [left; reflexivity|reflexivity].
  - destruct (git_commit h _) as [e|].
    + exists (Some e). do 2 eexists.
      split; [exact (f_equal snd H)|]. split; [exact (f_equal fst H)|].
      split; [reflexivity|]. eexists. split; [right; left; reflexivity|reflexivity].
    + destruct (git_push h _) as [e|].
      * exists (Some e). do 2 eexists.
        split; [exact (f_equal snd H)|]. split; [exact (f_equal fst H)|].
        split; [reflexivity|]. eexists.
        split; [right; right; left; reflexivity|reflexivity].
      * exists None. do 2 eexists.
        split; [exact (f_equal snd H)|]. split; [exact (f_equal fst H)|].
        split; reflexivity.
Qed.

(** X3.  A run returns [undefined] exactly when the staging step, the
    commit and the push all succeeded. *)
Theorem SyncBlog_returns_undefined_iff
  (h : host) (settings : GithubBlogSyncPluginSettings) :
  snd (SyncBlog h settings) = inr None
  <-> (snd (staging h (sync_dir h settings)) = inr tt
       /\ git_commit h (commit_call h (sync_dir h settings) (nameOfCommit settings)
                                    (emailOfCommit settings)) = None
       /\ git_push h (push_call (sync_dir h settings) (githubRepoUrl settings)
                                (githubPersonalAccessToken settings)) = None).
Proof.
  pose proof (SyncBlog_outcome h settings) as H. cbn zeta in H.
  apply (f_equal snd) in H. cbn [snd] in H. rewrite H. clear H.
  destruct (snd (staging h (sync_dir h settings))) as [e|[]].
  - split; [discriminate|intros [Hs _]; discriminate].
  - destruct (git_commit h _) as [e|].
    + split; [discriminate|intros [_ [Hc _]]; discriminate].
    + destruct (git_push h _) as [e|].
      * split; [discriminate|intros [_ [_ Hp]]; discriminate].
      * split; [intros _; repeat split|reflexivity].
Qed.

(** X4.  When the status computation of ["public"] rejects, the run makes
    no other library call: it shows the staging failure and returns the
    rejection.  When it rejects for ["content"], after a successful
    ["public"] step, the run stops there in the same way, the ["public"]
    operations staying as issued. *)
Theorem status_rejection_stops_run
  (h : host) (settings : GithubBlogSyncPluginSettings) (e : js_error) :
  (git_statusMatrix h (path_join h (sync_dir h settings) "public") = inl e ->
   SyncBlog h settings
   = ([ Notice "Will push to repository" None;
        Issue (StatusMatrix (path_join h (sync_dir h settings) "public"));
        Settle (StatusMatrix (path_join h (sync_dir h settings) "public")) (Some e);
        Notice ("Couldn't add updated files. Problem: " ++ error_toString e)%string
               (Some 10000%Z) ],
      inr (Some e)))
  /\ (snd (stage h (sync_dir h settings) "public") = inr tt ->
      git_statusMatrix h (path_join h (sync_dir h settings) "content") = inl e ->
      SyncBlog h settings
      = (Notice "Will push to repository" None
           :: fst (stage h (sync_dir h settings) "public")
           ++ [ Issue (StatusMatrix (path_join h (sync_dir h settings) "content"));
                Settle (StatusMatrix (path_join h (sync_dir h settings) "content"))
                       (Some e);
                Notice ("Couldn't add updated files. Problem: " ++ error_toString e)%string
                       (Some 10000%Z) ],
         inr (Some e))).
Proof.
  split.
  - intro Hs. pose proof (stage_status_rejected h _ "public" e Hs) as Hp.
    assert (Hrej : snd (stage h (sync_dir h settings) "public") = inl e)
      by (rewrite Hp; reflexivity).
    pose proof (staging_public_rejected h settings e Hrej) as Hst.
    assert (Hstaging : snd (staging h (sync_dir h settings)) = inl e)
      by (rewrite Hst; reflexivity).
    rewrite (SyncBlog_staging_failed h settings e Hstaging), Hst, Hp. reflexivity.
  - intros Hok Hs. pose proof (stage_status_rejected h _ "content" e Hs) as Hc.
    pose proof (staging_public_fulfilled h settings tt Hok) as Hst.
    assert (Hstaging : snd (staging h (sync_dir h settings)) = inl e)
      by (rewrite Hst, Hc; reflexivity).
    rewrite (SyncBlog_staging_failed h settings e Hstaging), Hst, Hc.
    cbn [fst]. rewrite <- app_assoc. reflexivity.
Qed.

Lemma status_rejection_stops_run_witness :
  SyncBlog no_repository_host demo_settings
  = ([ Notice "Will push to repository" None;
       Issue (StatusMatrix "/vault/blog/public");
       Settle (StatusMatrix "/vault/blog/public") (Some NotFoundError);
       Notice "Couldn't add updated files. Problem: NotFoundError: Could not find HEAD."
              (Some 10000%Z) ],
     inr (Some NotFoundError)).
Proof.
  exact (proj1 (status_rejection_stops_run no_repository_host demo_settings
                  NotFoundError) eq_refl).
Defined.

(** ** Noise rows leave no mark *)

Lemma promises_of_quiet (f : status_row -> option pending) (rows : list status_row) :
  (forall r, quiet r = false -> f r = None) ->
  promises_of (map f (filter quiet rows)) = promises_of (map f rows).
Proof.
  intro Hf. induction rows as [|r rows IH]; simpl; [reflexivity|].
  destruct (quiet r) eqn:Hq; simpl.
  - destruct (f r); [f_equal|]; exact IH.
  - rewrite (Hf r Hq). exact IH.
Qed.

Lemma stage_without_noise (h : host) (dir sub : string) :
  stage (without_noise h) dir sub = stage h dir sub.
Proof.
  unfold stage, await_statusMatrix, status_map, Promise_all. cbn.
  destruct (git_statusMatrix h (path_join h dir sub)) as [e|rows]; [reflexivity|].
  cbn.
  change (stage_callback (without_noise h) dir sub) with (stage_callback h dir sub).
  rewrite (promises_of_quiet (stage_callback h dir sub) rows
             (callback_noise h dir sub)).
  reflexivity.
Qed.

(** X5.  The rows whose path contains [.DS_Store] leave no mark on a run:
    with these rows taken out of every status matrix, the run issues the same
    calls in the same order, sees the same settlements, shows the same
    notices and returns the same value. *)
Theorem noise_rows_leave_no_mark
  (h : host) (settings : GithubBlogSyncPluginSettings) :
  SyncBlog (without_noise h) settings = SyncBlog h settings.
Proof.
  unfold SyncBlog, staging. cbn [path_join getBasePath without_noise].
  rewrite !stage_without_noise. reflexivity.
Qed.

(** ** The first rejection wins *)

Lemma insert_by_tick_sorted (p : pending) (l : list pending) :
  StronglySorted settles_no_later l ->
  StronglySorted settles_no_later (insert_by_tick p l).
Proof.
  induction 1 as [|q l Hl IH Hq]; simpl.
  - constructor; constructor.
  - destruct (Nat.leb_spec (settled_at (snd p)) (settled_at (snd q))) as [Hle|Hlt].
    + constructor; [constructor; assumption|].
      constructor; [exact Hle|].
      eapply Forall_impl; [|exact Hq]. unfold settles_no_later. intros x Hx. lia.
    + constructor; [exact IH|].
      eapply Permutation_Forall; [apply insert_by_tick_perm|].
      constructor; [unfold settles_no_later; lia|exact Hq].
Qed.

Lemma settle_order_sorted (l : list pending) :
  StronglySorted settles_no_later (settle_order l).
Proof.
  induction l as [|p l IH]; simpl; [constructor|].
  apply insert_by_tick_sorted. exact IH.
Qed.

Lemma settle_rejected_first (l : list pending) (e : js_error) :
  snd (settle_until_rejection l) = inl e ->
  exists before p after,
    l = before ++ p :: after
    /\ Forall fulfils before
    /\ rejection_of (snd p) = Some e.
Proof.
  induction l as [|[c s] l IH]; simpl; intro H; [discriminate|].
  destruct (rejection_of s) eqn:E; simpl in H.
  - inversion H; subst. exists [], (c, s), l. repeat split; [constructor|exact E].
  - destruct (IH H) as [before [p [after [-> [Hb Hp]]]]].
    exists ((c, s) :: before), p, after. repeat split; [|exact Hp].
    constructor; [exact E|exact Hb].
Qed.

Lemma sorted_after (before after : list pending) (p q : pending) :
  StronglySorted settles_no_later (before ++ p :: after) ->
  In q after -> settles_no_later p q.
Proof.
  induction before as [|b before IH]; simpl; intros Hs Hq.
  - inversion Hs as [|? ? _ Hall]; subst. rewrite Forall_forall in Hall.
    apply Hall. exact Hq.
  - inversion Hs; subst. apply IH; assumption.
Qed.

(** X6.  When operations of one subdirectory reject, the error the staging
    step throws, and so the one shown and returned, is the rejection of an
    operation that settles no later than every other rejecting operation of
    that subdirectory. *)
Theorem earliest_rejection_is_thrown
  (h : host) (dir sub : string) (rows : list status_row) (e : js_error) :
  git_statusMatrix h (path_join h dir sub) = inr rows ->
  snd (stage h dir sub) = inl e ->
  exists r,
    In r rows
    /\ includes (row_filepath r) ".DS_Store" = false
    /\ rejection_of (operation_settlement h dir sub r) = Some e
    /\ forall r',
         In r' rows ->
         includes (row_filepath r') ".DS_Store" = false ->
         rejection_of (operation_settlement h dir sub r') <> None ->
         (settled_at (operation_settlement h dir sub r)
          <= settled_at (operation_settlement h dir sub r'))%nat.
Proof.
  intros Hrows Hrej.
  rewrite (stage_status_reported h dir sub rows Hrows) in Hrej. cbn [snd] in Hrej.
  destruct (settle_rejected_first _ e Hrej) as [before [p [after [Hsplit [Hb Hp]]]]].
  assert (Hin : In p (in_flight h dir sub rows)).
  { apply (proj1 (settle_order_In _ _)). rewrite Hsplit.
    apply in_or_app. right. left. reflexivity. }
  unfold in_flight in Hin. apply in_map_iff in Hin. destruct Hin as [r [Hpr Hr]].
  apply filter_In in Hr. destruct Hr as [Hr Hq].
  exists r. split; [exact Hr|]. split.
  { unfold quiet, noise in Hq. destruct (includes (row_filepath r) ".DS_Store");
      [discriminate|reflexivity]. }
  subst p. cbn [snd] in Hp. split; [exact Hp|].
  intros r' Hr' Hn' Hrej'.
  assert (Hin' : In (operation h dir sub r', operation_settlement h dir sub r')
                    (settle_order (in_flight h dir sub rows))).
  { apply (proj2 (settle_order_In _ _)). unfold in_flight.
    apply in_map_iff. exists r'. split; [reflexivity|].
    apply filter_In. split; [exact Hr'|]. unfold quiet, noise. rewrite Hn'.
    reflexivity. }
  rewrite Hsplit in Hin'. apply in_app_or in Hin'. destruct Hin' as [Hin'|[Heq|Hin']].
  - rewrite Forall_forall in Hb. apply Hb in Hin'. unfold fulfils in Hin'.
    cbn [snd] in Hin'. contradiction.
  - inversion Heq as [[Hop Hset]]. rewrite Hset. apply Nat.le_refl.
  - pose proof (settle_order_sorted (in_flight h dir sub rows)) as Hs.
    rewrite Hsplit in Hs.
    exact (sorted_after before after _ _ Hs Hin').
Qed.

Lemma earliest_rejection_is_thrown_witness :
  exists r,
    In r [row "index.html" 1 2 1; row ".DS_Store" 0 2 0; row "old.html" 1 0 1]
    /\ includes (row_filepath r) ".DS_Store" = false
    /\ rejection_of (operation_settlement full_disk_host "/vault/blog" "public" r)
       = Some ENOSPC
    /\ forall r',
         In r' [row "index.html" 1 2 1; row ".DS_Store" 0 2 0; row "old.html" 1 0 1] ->
         includes (row_filepath r') ".DS_Store" = false ->
         rejection_of (operation_settlement full_disk_host "/vault/blog" "public" r')
         <> None ->
         (settled_at (operation_settlement full_disk_host "/vault/blog" "public" r)
          <= settled_at (operation_settlement full_disk_host "/vault/blog" "public" r'))%nat.
Proof.
  exact (earliest_rejection_is_thrown full_disk_host "/vault/blog" "public"
           [row "index.html" 1 2 1; row ".DS_Store" 0 2 0; row "old.html" 1 0 1]
           ENOSPC eq_refl eq_refl).
Defined.

(** ** Properties of settings objects *)

Section Objects.

Lemma lookup_absent (o : js_object) (k : string) :
  ~ In k (map fst o) -> lookup_property o k = None.
Proof.
  induction o as [|[k' v'] o IH]; simpl; intro H; [reflexivity|].
  destruct (String.eqb_spec k' k) as [->|Hk]; [exfalso; apply H; left; reflexivity|].
  apply IH. intro Hin. apply H. right. exact Hin.
Qed.

Lemma lookup_present (o : js_object) (k : string) :
  In k (map fst o) -> exists v, lookup_property o k = Some v.
Proof.
  induction o as [|[k' v'] o IH]; simpl; intro H; [contradiction|].
  destruct (String.eqb_spec k' k) as [->|Hk]; [exists v'; reflexivity|].
  destruct H as [H|H]; [contradiction|]. apply IH. exact H.
Qed.

Lemma lookup_None_absent (o : js_object) (k : string) :
  lookup_property o k = None -> ~ In k (map fst o).
Proof.
  intros H Hin. destruct (lookup_present o k Hin) as [v Hv]. congruence.
Qed.

Lemma update_keys (o : js_object) (k v : string) :
  map fst (update_property o k v) = map fst o.
Proof.
  induction o as [|[k' v'] o IH]; simpl; [reflexivity|].
  destruct (String.eqb k' k); simpl; [reflexivity|f_equal; exact IH].
Qed.

Lemma update_in_place (d t : js_object) (k w v : string) :
  ~ In k (map fst d) ->
  update_property (d ++ (k, w) :: t) k v = d ++ (k, v) :: t.
Proof.
  induction d as [|[k' v'] d IH]; simpl; intro H.
  - rewrite String.eqb_refl. reflexivity.
  - destruct (String.eqb_spec k' k) as [->|Hk]; [exfalso; apply H; left; reflexivity|].
    f_equal. apply IH. intro Hin. apply H. right. exact Hin.
Qed.

Lemma lookup_update_same (o : js_object) (k v : string) :
  In k (map fst o) -> lookup_property (update_property o k v) k = Some v.
Proof.
  induction o as [|[k' v'] o IH]; simpl; intro H; [contradiction|].
  destruct (String.eqb_spec k' k) as [->|Hk]; simpl.
  - rewrite String.eqb_refl. reflexivity.
  - destruct (String.eqb_spec k' k); [contradiction|].
    destruct H as [H|H]; [contradiction|]. apply IH. exact H.
Qed.

Lemma lookup_update_other (o : js_object) (k k' v : string) :
  k <> k' ->
  lookup_property (update_property o k v) k' = lookup_property o k'.
Proof.
  intro Hne. induction o as [|[k0 v0] o IH]; simpl; [reflexivity|].
  destruct (String.eqb_spec k0 k) as [->|Hk]; simpl.
  - destruct (String.eqb_spec k k'); [contradiction|reflexivity].
  - destruct (String.eqb k0 k'); [reflexivity|exact IH].
Qed.

Lemma lookup_insert_same (o : js_object) (n : N) (k v : string) :
  ~ In k (map fst o) ->
  lookup_property (insert_index o n k v) k = Some v.
Proof.
  induction o as [|[k' v'] o IH]; simpl; intro H.
  - rewrite String.eqb_refl. reflexivity.
  - assert (Hk : k' <> k) by (intro E; apply H; left; exact E).
    assert (Ho : ~ In k (map fst o)) by (intro E; apply H; right; exact E).
    destruct (array_index k') as [n'|]; [destruct (n' <=? n)%N|]; simpl;
      rewrite ?String.eqb_refl; try reflexivity.
    destruct (String.eqb_spec k' k); [contradiction|]. apply IH. exact Ho.
Qed.

Lemma lookup_insert_other (o : js_object) (n : N) (k k' v : string) :
  k <> k' ->
  lookup_property (insert_index o n k v) k' = lookup_property o k'.
Proof.
  intro Hne. induction o as [|[k0 v0] o IH]; simpl.
  - destruct (String.eqb_spec k k'); [contradiction|reflexivity].
  - destruct (array_index k0) as [n0|]; [destruct (n0 <=? n)%N|]; simpl.
    + destruct (String.eqb k0 k'); [reflexivity|exact IH].
    + destruct (String.eqb_spec k k'); [contradiction|reflexivity].
    + destruct (String.eqb_spec k k'); [contradiction|reflexivity].
Qed.

Lemma lookup_last_same (o : js_object) (k v : string) :
  ~ In k (map fst o) -> lookup_property (o ++ [(k, v)]) k = Some v.
Proof.
  induction o as [|[k' v'] o IH]; simpl; intro H.
  - rewrite String.eqb_refl. reflexivity.
  - destruct (String.eqb_spec k' k) as [E|_]; [exfalso; apply H; left; exact E|].
    apply IH. intro E. apply H. right. exact E.
Qed.

Lemma lookup_last_other (o : js_object) (k k' v : string) :
  k <> k' -> lookup_property (o ++ [(k, v)]) k' = lookup_property o k'.
Proof.
  intro Hne. induction o as [|[k0 v0] o IH]; simpl.
  - destruct (String.eqb_spec k k'); [contradiction|reflexivity].
  - destruct (String.eqb k0 k'); [reflexivity|exact IH].
Qed.

(** The four cases of an assignment. *)
Lemma assign_present (o : js_object) (k v : string) :
  In k (map fst o) -> assign_property o k v = update_property o k v.
Proof.
  intro H. unfold assign_property, has_own_property.
  destruct (lookup_present o k H) as [w ->]. reflexivity.
Qed.

Lemma assign_proto (o : js_object) (v : string) :
  ~ In "__proto__" (map fst o) -> assign_property o "__proto__" v = o.
Proof.
  intro H. unfold assign_property, has_own_property.
  rewrite (lookup_absent o _ H). reflexivity.
Qed.

Lemma assign_index (o : js_object) (n : N) (k v : string) :
  ~ In k (map fst o) -> array_index k = Some n ->
  assign_property o k v = insert_index o n k v.
Proof.
  intros H Hn. unfold assign_property, has_own_property.
  rewrite (lookup_absent o _ H), Hn.
  destruct (String.eqb_spec k "__proto__") as [->|_]; [discriminate Hn|reflexivity].
Qed.

Lemma assign_plain (o : js_object) (k v : string) :
  ~ In k (map fst o) -> plain_key k -> assign_property o k v = o ++ [(k, v)].
Proof.
  intros H [Hn Hp]. unfold assign_property, has_own_property.
  rewrite (lookup_absent o _ H), Hn.
  destruct (String.eqb_spec k "__proto__"); [contradiction|reflexivity].
Qed.

Lemma key_cases (o : js_object) (k : string) :
  In k (map fst o)
  \/ (~ In k (map fst o)
      /\ (k = "__proto__" \/ (exists n, array_index k = Some n) \/ plain_key k)).
Proof.
  destruct (in_dec string_dec k (map fst o)) as [Hin|Hout]; [left; exact Hin|].
  right. split; [exact Hout|].
  destruct (string_dec k "__proto__") as [->|Hp]; [left; reflexivity|].
  right. destruct (array_index k) as [n|] eqn:E.
  - left. exists n. reflexivity.
  - right. split; assumption.
Qed.

Lemma lookup_assign_same (o : js_object) (k v : string) :
  k <> "__proto__" ->
  lookup_property (assign_property o k v) k = Some v.
Proof.
  intro Hp. destruct (key_cases o k) as [Hin|[Hout [->|[[n Hn]|Hplain]]]].
  - rewrite (assign_present o k v Hin). apply lookup_update_same. exact Hin.
  - contradiction.
  - rewrite (assign_index o n k v Hout Hn). apply lookup_insert_same. exact Hout.
  - rewrite (assign_plain o k v Hout Hplain). apply lookup_last_same. exact Hout.
Qed.

Lemma lookup_assign_other (o : js_object) (k k' v : string) :
  k <> k' ->
  lookup_property (assign_property o k v) k' = lookup_property o k'.
Proof.
  intro Hne. destruct (key_cases o k) as [Hin|[Hout [->|[[n Hn]|Hplain]]]].
  - rewrite (assign_present o k v Hin). apply lookup_update_other. exact Hne.
  - rewrite (assign_proto o v Hout). reflexivity.
  - rewrite (assign_index o n k v Hout Hn). apply lookup_insert_other. exact Hne.
  - rewrite (assign_plain o k v Hout Hplain). apply lookup_last_other. exact Hne.
Qed.

(** No assignment of a string gives an object an own [__proto__]. *)
Lemma assign_no_proto (o : js_object) (k v : string) :
  lookup_property o "__proto__" = None ->
  lookup_property (assign_property o k v) "__proto__" = None.
Proof.
  intro H. destruct (string_dec k "__proto__") as [->|Hk].
  - rewrite (assign_proto o v (lookup_None_absent o _ H)). exact H.
  - rewrite (lookup_assign_other o k _ v Hk). exact H.
Qed.

Lemma assign_from_no_proto (src t : js_object) :
  lookup_property t "__proto__" = None ->
  lookup_property (assign_from t src) "__proto__" = None.
Proof.
  revert t. unfold assign_from. induction src as [|[k v] src IH]; intros t H; simpl.
  - exact H.
  - apply IH. apply assign_no_proto. exact H.
Qed.

Lemma lookup_assign_from (src t : js_object) (k : string) :
  each_key_once src ->
  k <> "__proto__" ->
  lookup_property (assign_from t src) k
  = match lookup_property src k with
    | Some v => Some v
    | None => lookup_property t k
    end.
Proof.
  revert t. unfold assign_from, each_key_once.
  induction src as [|[k0 v0] src IH]; intros t Hnd Hp; simpl; [reflexivity|].
  inversion Hnd as [|? ? Hout Hnd']; subst.
  rewrite (IH _ Hnd' Hp). destruct (String.eqb_spec k0 k) as [->|Hk].
  - rewrite (lookup_absent src k Hout). apply lookup_assign_same. exact Hp.
  - destruct (lookup_property src k); [reflexivity|].
    apply lookup_assign_other. exact Hk.
Qed.

End Objects.

(** ** The key order of settings objects *)

Section KeyOrder.

Lemma split_by_keys (o : js_object) (a b : list string) :
  map fst o = a ++ b ->
  exists oa ob, o = oa ++ ob /\ map fst oa = a /\ map fst ob = b.
Proof.
  revert o. induction a as [|k a IH]; intros o H.
  - exists [], o. repeat split. exact H.
  - destruct o as [|kv o]; [discriminate|]. simpl in H. inversion H as [[Hk Hrest]].
    destruct (IH o Hrest) as [oa [ob [-> [Ha Hb]]]].
    exists (kv :: oa), ob. repeat split; [simpl; rewrite Ha; reflexivity|exact Hb].
Qed.

Lemma sorted_before (R : string -> string -> Prop) (a b : list string) (x : string) :
  StronglySorted R (a ++ x :: b) -> Forall (fun y => R y x) a.
Proof.
  induction a as [|y a IH]; simpl; intro H; [constructor|].
  inversion H as [|? ? Hs Hall]; subst. constructor.
  - rewrite Forall_forall in Hall. apply Hall. apply in_or_app. right. left. reflexivity.
  - apply IH. exact Hs.
Qed.

(** A new index goes past the indices up to its own and stops at the
    first key that is no index. *)
Lemma insert_past (done names : js_object) (n : N) (k v : string) :
  Forall (fun kv => exists m, array_index (fst kv) = Some m /\ (m <= n)%N) done ->
  Forall (fun kv => array_index (fst kv) = None) names ->
  insert_index (done ++ names) n k v = done ++ (k, v) :: names.
Proof.
  intros Hdone Hnames. induction Hdone as [|[k' v'] done [m [Hm Hle]] _ IH]; simpl.
  - destruct names as [|[k' v'] names]; [reflexivity|].
    inversion Hnames as [|? ? Hk _]; subst. simpl in Hk. simpl. rewrite Hk. reflexivity.
  - simpl in Hm. rewrite Hm. destruct (N.leb_spec m n); [|lia]. rewrite IH. reflexivity.
Qed.

(** Where a new index comes to stand among indices in ascending order. *)
Lemma insert_among (ints names : js_object) (n : N) (k v : string) :
  Forall index_key (map fst ints) ->
  Forall (fun kv => array_index (fst kv) = None) names ->
  exists before after,
    ints = before ++ after
    /\ insert_index (ints ++ names) n k v = before ++ (k, v) :: after ++ names
    /\ Forall (fun kv => exists m, array_index (fst kv) = Some m /\ (m <= n)%N) before
    /\ (StronglySorted key_le (map fst ints) ->
        Forall (fun kv => exists m, array_index (fst kv) = Some m /\ (n < m)%N) after).
Proof.
  intros Hidx Hnames. induction ints as [|[k' v'] ints IH]; simpl in *.
  - exists [], []. split; [reflexivity|]. split.
    + apply (insert_past [] names n k v); [constructor|exact Hnames].
    + split; [constructor|intros _; constructor].
  - inversion Hidx as [|? ? Hk' Hrest]; subst. unfold index_key in Hk'.
    destruct (array_index k') as [n'|] eqn:E; [|contradiction].
    destruct (N.leb_spec n' n) as [Hle|Hgt].
    + destruct (IH Hrest) as [before [after [-> [Hins [Hb Ha]]]]].
      exists ((k', v') :: before), after. split; [reflexivity|]. split; [|split].
      * simpl. rewrite Hins. reflexivity.
      * constructor; [exists n'; split; [exact E|exact Hle]|exact Hb].
      * intro Hs. apply Ha. inversion Hs; assumption.
    + exists [], ((k', v') :: ints). split; [reflexivity|]. split; [reflexivity|].
      split; [constructor|]. intro Hs. inversion Hs as [|? ? Hs' Hall]; subst.
      constructor; [exists n'; split; [exact E|exact Hgt]|].
      apply Forall_forall. intros [k2 v2] Hin.
      rewrite Forall_forall in Hall, Hrest.
      assert (Hk2 : In k2 (map fst ints)) by (apply in_map_iff; exists (k2, v2); split; [reflexivity|exact Hin]).
      pose proof (Hrest k2 Hk2) as Hi. unfold index_key in Hi.
      destruct (array_index k2) as [m|] eqn:E2; [|contradiction].
      exists m. split; [exact E2|]. simpl.
      pose proof (Hall k2 Hk2 n' m E E2). lia.
Qed.

Lemma sorted_with_new (before after : js_object) (n : N) (k : string) :
  array_index k = Some n ->
  StronglySorted key_le (map fst (before ++ after)) ->
  Forall (fun kv => exists m, array_index (fst kv) = Some m /\ (m <= n)%N) before ->
  Forall (fun kv => exists m, array_index (fst kv) = Some m /\ (n < m)%N) after ->
  StronglySorted key_le (map fst before ++ k :: map fst after).
Proof.
  intros Hk Hs Hb Ha. induction Hb as [|[k' v'] before [m [Hm Hle]] _ IH]; simpl in *.
  - constructor; [exact Hs|]. apply Forall_forall. intros k2 Hin.
    apply in_map_iff in Hin. destruct Hin as [[k3 v3] [<- Hin]].
    rewrite Forall_forall in Ha. destruct (Ha _ Hin) as [m [Hm Hlt]].
    intros n1 m1 H1 H2. simpl in *. rewrite Hk in H1. rewrite Hm in H2.
    inversion H1; inversion H2; subst. lia.
  - inversion Hs as [|? ? Hs' Hall]; subst. constructor; [apply IH; exact Hs'|].
    rewrite map_app in Hall. apply Forall_app in Hall. destruct Hall as [H1 H2].
    apply Forall_app. split; [exact H1|]. constructor; [|exact H2].
    intros n1 m1 E1 E2. rewrite Hm in E1. rewrite Hk in E2.
    inversion E1; inversion E2; subst. exact Hle.
Qed.

Lemma defaults_plain :
  Forall plain_key (map fst (object_of_settings DEFAULT_SETTINGS)).
Proof.
  cbn. repeat (constructor; [split; [reflexivity|discriminate]|]). constructor.
Qed.

Lemma plain_no_index (l : js_object) :
  Forall plain_key (map fst l) -> Forall (fun kv => array_index (fst kv) = None) l.
Proof.
  intro H. apply Forall_forall. intros kv Hin. rewrite Forall_forall in H.
  apply (H (fst kv)). apply in_map. exact Hin.
Qed.

(** Every assignment keeps an object canonical. *)
Lemma canonical_assign (o : js_object) (k v : string) :
  canonical o -> canonical (assign_property o k v).
Proof.
  intros [Hnd [ikeys [rest [Hkeys [Hidx [Hsorted Hplain]]]]]].
  unfold canonical, each_key_once in *.
  destruct (key_cases o k) as [Hin|[Hout [->|[[n Hn]|Hk]]]].
  - rewrite (assign_present o k v Hin), update_keys.
    split; [exact Hnd|]. exists ikeys, rest. repeat split; assumption.
  - rewrite (assign_proto o v Hout).
    split; [exact Hnd|]. exists ikeys, rest. repeat split; assumption.
  - rewrite (assign_index o n k v Hout Hn).
    destruct (split_by_keys o _ _ Hkeys) as [ints [names [-> [Hi Hnames]]]].
    assert (Hnoidx : Forall (fun kv => array_index (fst kv) = None) names).
    { apply plain_no_index. rewrite Hnames. apply Forall_app.
      split; [apply defaults_plain|exact Hplain]. }
    assert (Hidx' : Forall index_key (map fst ints)) by (rewrite Hi; exact Hidx).
    destruct (insert_among ints names n k v Hidx' Hnoidx)
      as [before [after [-> [Hins [Hb Ha]]]]].
    rewrite Hi in Ha. specialize (Ha Hsorted).
    rewrite Hins. split.
    + rewrite map_app. simpl. rewrite map_app.
      rewrite !map_app in Hnd. rewrite !map_app in Hout.
      rewrite <- app_assoc in Hnd. 
      apply (proj2 (NoDup_Add (Add_app k (map fst before)
                                       (map fst after ++ map fst names)))).
      split; [exact Hnd|rewrite app_assoc; exact Hout].
    + exists (map fst before ++ k :: map fst after), rest. split; [|split; [|split]].
      * rewrite map_app. simpl. rewrite map_app, Hnames, <- app_assoc. reflexivity.
      * rewrite <- Hi, map_app in Hidx. apply Forall_app in Hidx.
        destruct Hidx as [H1 H2]. apply Forall_app. split; [exact H1|].
        constructor; [unfold index_key; rewrite Hn; discriminate|exact H2].
      * apply (sorted_with_new before after n k Hn); [|exact Hb|exact Ha].
        rewrite Hi. exact Hsorted.
      * exact Hplain.
  - rewrite (assign_plain o k v Hout Hk). rewrite map_app. simpl. split.
    + pose proof (Add_app k (map fst o) []) as Hadd. rewrite app_nil_r in Hadd.
      apply (proj2 (NoDup_Add Hadd)). split; assumption.
    + exists ikeys, (rest ++ [k]). split; [|split; [|split]].
      * rewrite Hkeys, <- !app_assoc. reflexivity.
      * exact Hidx.
      * exact Hsorted.
      * apply Forall_app. split; [exact Hplain|]. constructor; [exact Hk|constructor].
Qed.

End KeyOrder.

(** ** Loading, editing and saving the settings *)

Lemma defaults_canonical : canonical (object_of_settings DEFAULT_SETTINGS).
Proof.
  split.
  - unfold each_key_once. cbn.
    repeat (constructor; [cbn; intuition discriminate|]). constructor.
  - exists [], []. split; [rewrite app_nil_r; reflexivity|].
    repeat split; constructor.
Qed.

Lemma assign_from_canonical (src t : js_object) :
  canonical t -> canonical (assign_from t src).
Proof.
  revert t. unfold assign_from. induction src as [|[k v] src IH]; intros t H; simpl.
  - exact H.
  - apply IH. apply canonical_assign. exact H.
Qed.

Lemma merged_canonical (data : option js_object) :
  canonical (Object_assign [] [Some (object_of_settings DEFAULT_SETTINGS); data]).
Proof.
  unfold Object_assign. cbn [fold_left].
  change (assign_from [] (object_of_settings DEFAULT_SETTINGS))
    with (object_of_settings DEFAULT_SETTINGS).
  destruct data as [o|].
  - apply assign_from_canonical. apply defaults_canonical.
  - apply defaults_canonical.
Qed.

Lemma canonical_assign_field (o : js_object) (f : field) (v : string) :
  canonical o -> canonical (assign_property o (field_key f) v).
Proof. apply canonical_assign. Qed.

(** The array indices of a canonical object, assigned in order to an object
    without array indices, come to stand before it. *)
Lemma assign_from_indices (ints done names : js_object) :
  each_key_once (done ++ ints ++ names) ->
  Forall index_key (map fst (done ++ ints)) ->
  StronglySorted key_le (map fst (done ++ ints)) ->
  Forall (fun kv => array_index (fst kv) = None) names ->
  assign_from (done ++ names) ints = done ++ ints ++ names.
Proof.
  revert done. unfold assign_from, each_key_once.
  induction ints as [|[k v] ints IH]; intros done Hnd Hidx Hs Hnames; simpl.
  - reflexivity.
  - rewrite !map_app in Hnd. simpl in Hnd.
    assert (Hout : ~ In k (map fst (done ++ names))).
    { apply NoDup_remove_2 in Hnd. rewrite map_app. intro Hin. apply Hnd.
      apply in_app_or in Hin. apply in_or_app. destruct Hin as [Hin|Hin];
        [left; exact Hin|right; apply in_or_app; right; exact Hin]. }
    rewrite map_app in Hidx, Hs. simpl in Hidx, Hs.
    assert (Hk : index_key k).
    { rewrite Forall_forall in Hidx. apply Hidx. apply in_or_app. right. left.
      reflexivity. }
    unfold index_key in Hk. destruct (array_index k) as [n|] eqn:Hn; [|contradiction].
    rewrite (assign_index _ n k v Hout Hn).
    rewrite insert_past; [|
      |exact Hnames].
    + change (done ++ (k, v) :: names) with (done ++ [(k, v)] ++ names).
      rewrite app_assoc. rewrite IH.
      * rewrite <- !app_assoc. reflexivity.
      * rewrite !map_app. simpl. rewrite <- !app_assoc. simpl. exact Hnd.
      * rewrite !map_app. simpl. rewrite <- app_assoc. exact Hidx.
      * rewrite !map_app. simpl. rewrite <- app_assoc. exact Hs.
      * exact Hnames.
    + pose proof (sorted_before key_le _ _ _ Hs) as Hbefore.
      apply Forall_forall. intros [k' v'] Hin. simpl.
      rewrite Forall_forall in Hbefore, Hidx.
      assert (Hk' : In k' (map fst done))
        by (apply in_map_iff; exists (k', v'); split; [reflexivity|exact Hin]).
      assert (Hi : index_key k') by (apply Hidx; apply in_or_app; left; exact Hk').
      unfold index_key in Hi. destruct (array_index k') as [m|] eqn:Hm; [|contradiction].
      exists m. split; [reflexivity|]. exact (Hbefore k' Hk' m n Hm Hn).
Qed.

Lemma assign_from_in_place (p d t : js_object) :
  map fst p = map fst t ->
  each_key_once (d ++ p) ->
  assign_from (d ++ t) p = d ++ p.
Proof.
  revert d t. unfold assign_from, each_key_once.
  induction p as [|[k v] p IH]; intros d [|[k' w] t] Hkeys H; simpl in *;
    try discriminate.
  - reflexivity.
  - inversion Hkeys as [[Hk Hrest]]. subst k'.
    assert (Hout : ~ In k (map fst d)).
    { rewrite map_app in H. simpl in H. apply NoDup_remove_2 in H.
      intro Hin. apply H. apply in_or_app. left. exact Hin. }
    rewrite assign_present
      by (rewrite map_app; apply in_or_app; right; left; reflexivity).
    rewrite (update_in_place d t k w v Hout).
    change (d ++ (k, v) :: t) with (d ++ [(k, v)] ++ t). rewrite app_assoc.
    rewrite (IH (d ++ [(k, v)]) t Hrest).
    + rewrite <- app_assoc. reflexivity.
    + rewrite <- app_assoc. exact H.
Qed.

Lemma assign_from_append (q t : js_object) :
  each_key_once (t ++ q) ->
  Forall plain_key (map fst q) ->
  assign_from t q = t ++ q.
Proof.
  revert t. unfold assign_from, each_key_once.
  induction q as [|[k v] q IH]; intros t H Hplain; simpl.
  - symmetry. apply app_nil_r.
  - assert (Hout : ~ In k (map fst t)).
    { rewrite map_app in H. simpl in H. apply NoDup_remove_2 in H.
      intro Hin. apply H. apply in_or_app. left. exact Hin. }
    simpl in Hplain. inversion Hplain as [|? ? Hk Hrest]; subst.
    rewrite (assign_plain t k v Hout Hk), IH.
    + rewrite <- app_assoc. reflexivity.
    + rewrite <- app_assoc. exact H.
    + exact Hrest.
Qed.

(** Merging a canonical object over the defaults gives the object back. *)
Lemma canonical_remerged (o : js_object) :
  canonical o ->
  Object_assign [] [Some (object_of_settings DEFAULT_SETTINGS); Some o] = o.
Proof.
  intros [Hnd [ikeys [rest [Hkeys [Hidx [Hsorted Hplain]]]]]].
  unfold Object_assign. cbn [fold_left].
  change (assign_from [] (object_of_settings DEFAULT_SETTINGS))
    with (object_of_settings DEFAULT_SETTINGS).
  destruct (split_by_keys o _ _ Hkeys) as [ints [names [-> [Hi Hn]]]].
  destruct (split_by_keys names _ _ Hn) as [six [others [-> [Hsix Hothers]]]].
  unfold assign_from. rewrite !fold_left_app.
  fold (assign_from (object_of_settings DEFAULT_SETTINGS) ints).
  pose proof (assign_from_indices ints [] (object_of_settings DEFAULT_SETTINGS)) as H1.
  cbn [app] in H1. rewrite H1.
  - fold (assign_from (ints ++ object_of_settings DEFAULT_SETTINGS) six).
    rewrite (assign_from_in_place six ints _ Hsix).
    + fold (assign_from (ints ++ six) others).
      rewrite assign_from_append.
      * rewrite <- app_assoc. reflexivity.
      * rewrite <- app_assoc. exact Hnd.
      * rewrite Hothers. exact Hplain.
    + unfold each_key_once in *. rewrite app_assoc in Hnd. rewrite map_app in Hnd.
      exact (NoDup_app_remove_r _ _ Hnd).
  - unfold each_key_once in *. rewrite !map_app in *.
    cbn [app]. rewrite <- Hsix. rewrite app_assoc in Hnd.
    exact (NoDup_app_remove_r _ _ Hnd).
  - rewrite Hi. exact Hidx.
  - rewrite Hi. exact Hsorted.
  - apply plain_no_index. apply defaults_plain.
Qed.

Lemma canonical_defined (o : js_object) :
  canonical o -> exists s, settings_of_object o = Some s.
Proof.
  intros [_ [ikeys [rest [Hkeys _]]]].
  assert (Hin : forall k, In k (map fst (object_of_settings DEFAULT_SETTINGS)) ->
                          exists v, lookup_property o k = Some v).
  { intros k Hk. apply lookup_present. rewrite Hkeys. apply in_or_app. right.
    apply in_or_app. left. exact Hk. }
  unfold settings_of_object.
  destruct (Hin "githubUsername") as [v1 ->]; [cbn; tauto|].
  destruct (Hin "githubRepoUrl") as [v2 ->]; [cbn; tauto|].
  destruct (Hin "githubPersonalAccessToken") as [v3 ->]; [cbn; tauto|].
  destruct (Hin "gitDirLocation") as [v4 ->]; [cbn; tauto|].
  destruct (Hin "nameOfCommit") as [v5 ->]; [cbn; tauto|].
  destruct (Hin "emailOfCommit") as [v6 ->]; [cbn; tauto|].
  eexists. reflexivity.
Qed.

(** Assigning the property of a field replaces that field and no other. *)
Lemma settings_of_assigned (o : js_object) (f : field) (v : string)
  (s : GithubBlogSyncPluginSettings) :
  settings_of_object o = Some s ->
  settings_of_object (assign_property o (field_key f) v) = Some (with_field f v s).
Proof.
  unfold settings_of_object. intro H.
  destruct (lookup_property o "githubUsername") as [v1|] eqn:E1; [|discriminate].
  destruct (lookup_property o "githubRepoUrl") as [v2|] eqn:E2; [|discriminate].
  destruct (lookup_property o "githubPersonalAccessToken") as [v3|] eqn:E3;
    [|discriminate].
  destruct (lookup_property o "gitDirLocation") as [v4|] eqn:E4; [|discriminate].
  destruct (lookup_property o "nameOfCommit") as [v5|] eqn:E5; [|discriminate].
  destruct (lookup_property o "emailOfCommit") as [v6|] eqn:E6; [|discriminate].
  inversion H; subst s; clear H.
  destruct f; cbn [field_key with_field githubUsername githubRepoUrl
                   githubPersonalAccessToken gitDirLocation nameOfCommit emailOfCommit];
    rewrite lookup_assign_same by discriminate;
    rewrite !lookup_assign_other by discriminate;
    rewrite ?E1, ?E2, ?E3, ?E4, ?E5, ?E6; reflexivity.
Qed.

Lemma edit_all_canonical (edits : list (field * string)) (p : plugin) :
  canonical (plugin_settings p) -> canonical (plugin_settings (edit_all edits p)).
Proof.
  revert p. unfold edit_all. induction edits as [|[f v] edits IH]; intros p H; simpl.
  - exact H.
  - apply IH. cbn. apply canonical_assign_field. exact H.
Qed.

(** X7.  [loadSettings] merges the stored data over the defaults: in the
    loaded settings a key holds its stored value when the data has the key,
    and its default otherwise, so that each of the six fields is defined, as
    the empty string when it was never stored or nothing was stored at all;
    keys of the data the plugin does not know are kept.  The one exception is
    a stored key [__proto__], which the merge drops: the loaded settings
    never have such a property. *)
Theorem loadSettings_fills_defaults (data : option js_object) :
  (forall o, data = Some o -> each_key_once o) ->
  (forall k,
      lookup_property (plugin_settings (onload data)) k
      = if String.eqb k "__proto__" then None
        else match match data with
                   | Some o => lookup_property o k
                   | None => None
                   end with
             | Some v => Some v
             | None => lookup_property (object_of_settings DEFAULT_SETTINGS) k
             end)
  /\ settings_of_object (plugin_settings (onload data))
     = Some {| githubUsername := stored_or_empty data "githubUsername";
               githubRepoUrl := stored_or_empty data "githubRepoUrl";
               githubPersonalAccessToken :=
                 stored_or_empty data "githubPersonalAccessToken";
               gitDirLocation := stored_or_empty data "gitDirLocation";
               nameOfCommit := stored_or_empty data "nameOfCommit";
               emailOfCommit := stored_or_empty data "emailOfCommit" |}.
Proof.
  intro Hwf.
  assert (Hlaw : forall k,
             lookup_property (plugin_settings (onload data)) k
             = if String.eqb k "__proto__" then None
               else match match data with
                          | Some o => lookup_property o k
                          | None => None
                          end with
                    | Some v => Some v
                    | None => lookup_property (object_of_settings DEFAULT_SETTINGS) k
                    end).
  { intro k. unfold onload, loadSettings, Object_assign.
    cbn [plugin_settings plugin_data fold_left].
    change (assign_from [] (object_of_settings DEFAULT_SETTINGS))
      with (object_of_settings DEFAULT_SETTINGS).
    destruct (String.eqb_spec k "__proto__") as [->|Hk].
    - destruct data as [o|]; [|reflexivity].
      apply assign_from_no_proto. reflexivity.
    - destruct data as [o|]; [|reflexivity].
      apply lookup_assign_from; [apply Hwf; reflexivity|exact Hk]. }
  split; [exact Hlaw|].
  unfold settings_of_object. rewrite !Hlaw. cbn [String.eqb Ascii.eqb Bool.eqb].
  unfold stored_or_empty.
  destruct data as [o|]; [|reflexivity].
  destruct (lookup_property o "githubUsername");
    destruct (lookup_property o "githubRepoUrl");
    destruct (lookup_property o "githubPersonalAccessToken");
    destruct (lookup_property o "gitDirLocation");
    destruct (lookup_property o "nameOfCommit");
    destruct (lookup_property o "emailOfCommit"); reflexivity.
Qed.

Lemma odd_data_each_key_once (o : js_object) : Some odd_data = Some o -> each_key_once o.
Proof.
  intro H. inversion H; subst o. unfold each_key_once. cbn.
  repeat (constructor; [cbn; intuition discriminate|]). constructor.
Qed.

Lemma loadSettings_fills_defaults_witness :
  (lookup_property (plugin_settings (onload (Some odd_data))) "theme" = Some "dark"
   /\ lookup_property (plugin_settings (onload (Some odd_data))) "10" = Some "ten"
   /\ lookup_property (plugin_settings (onload (Some odd_data))) "__proto__" = None)
  /\ settings_of_object (plugin_settings (onload (Some odd_data)))
     = Some {| githubUsername := "";
               githubRepoUrl := "github.com/mkutay/blog";
               githubPersonalAccessToken := "";
               gitDirLocation := "";
               nameOfCommit := "Kutay";
               emailOfCommit := "" |}.
Proof.
  pose proof (loadSettings_fills_defaults (Some odd_data) odd_data_each_key_once) as H.
  split; [|exact (proj2 H)].
  split; [exact (proj1 H "theme")|].
  split; [exact (proj1 H "10")|exact (proj1 H "__proto__")].
Defined.

(** X8.  An [onChange] handler replaces the field of its input by the
    typed text and leaves every other property as it was, and what it saves
    is the settings it has just changed. *)
Theorem onChange_sets_field_and_saves
  (p : plugin) (f : field) (value : string) (s : GithubBlogSyncPluginSettings) :
  settings_of_object (plugin_settings p) = Some s ->
  settings_of_object (plugin_settings (onChange f value p))
  = Some (with_field f value s)
  /\ plugin_data (onChange f value p) = Some (plugin_settings (onChange f value p))
  /\ forall k,
       k <> field_key f ->
       lookup_property (plugin_settings (onChange f value p)) k
       = lookup_property (plugin_settings p) k.
Proof.
  intro H. unfold onChange, saveSettings. cbn [plugin_settings plugin_data].
  split; [apply settings_of_assigned; exact H|]. split; [reflexivity|].
  intros k Hk. apply lookup_assign_other. intro Heq. apply Hk. symmetry. exact Heq.
Qed.

Lemma onChange_sets_field_and_saves_witness :
  settings_of_object
    (plugin_settings (onChange AccessToken "ghp_0123456789" (onload (Some old_data))))
  = Some {| githubUsername := "";
            githubRepoUrl := "github.com/mkutay/blog";
            githubPersonalAccessToken := "ghp_0123456789";
            gitDirLocation := "";
            nameOfCommit := "Kutay";
            emailOfCommit := "" |}
  /\ plugin_data (onChange AccessToken "ghp_0123456789" (onload (Some old_data)))
     = Some (plugin_settings
               (onChange AccessToken "ghp_0123456789" (onload (Some old_data)))).
Proof.
  pose proof (onChange_sets_field_and_saves (onload (Some old_data)) AccessToken
                "ghp_0123456789" _ eq_refl) as H.
  split; [exact (proj1 H)|exact (proj1 (proj2 H))].
Defined.

(** X9.  Whatever data the host holds and whatever the user then types
    into the form, the six fields stay defined and are the loaded ones with
    the edits applied in order, and restarting the plugin on the data it has
    saved gives back the very settings it had in memory. *)
Theorem edits_survive_restart
  (data : option js_object) (edits : list (field * string)) :
  exists loaded,
    settings_of_object (plugin_settings (onload data)) = Some loaded
    /\ settings_of_object (plugin_settings (edit_all edits (onload data)))
       = Some (fold_left (fun s e => with_field (fst e) (snd e) s) edits loaded)
    /\ onload (plugin_data (edit_all edits (onload data)))
       = edit_all edits (onload data).
Proof.
  pose proof (merged_canonical data) as Hc.
  change (Object_assign [] [Some (object_of_settings DEFAULT_SETTINGS); data])
    with (plugin_settings (onload data)) in Hc.
  destruct (canonical_defined _ Hc) as [loaded Hloaded].
  exists loaded. split; [exact Hloaded|].
  assert (Hstart : onload (plugin_data (onload data)) = onload data) by reflexivity.
  revert Hc Hloaded Hstart. generalize (onload data) as p. revert loaded.
  unfold edit_all. induction edits as [|[f v] edits IH]; intros loaded p Hc Hs Hre; simpl.
  - split; assumption.
  - apply IH.
    + cbn. apply canonical_assign_field. exact Hc.
    + cbn. apply settings_of_assigned. exact Hs.
    + unfold onChange, saveSettings, onload, loadSettings.
      cbn [plugin_settings plugin_data]. f_equal.
      apply canonical_remerged. apply canonical_assign_field. exact Hc.
Qed.

(** X10.  Each input of the form edits the field it shows: once text has
    been typed into the input at some place of the form, the form displayed
    again holds that text at that place, and every other input, every name,
    description and placeholder is as before. *)
Theorem display_after_edit
  (s : GithubBlogSyncPluginSettings) (i : nat) (f : field) (value : string) :
  nth_error form_fields i = Some f ->
  form_values (display (with_field f value s))
  = firstn i (form_values (display s)) ++ value :: skipn (S i) (form_values (display s))
  /\ map setting_name (display (with_field f value s)) = map setting_name (display s)
  /\ map setting_desc (display (with_field f value s)) = map setting_desc (display s)
  /\ map (fun row => text_placeholder (setting_text row)) (display (with_field f value s))
     = map (fun row => text_placeholder (setting_text row)) (display s).
Proof.
  intro Hf.
  do 6 (destruct i as [|i]; [inversion Hf; subst f; repeat split|]).
  destruct i; discriminate.
Qed.

Lemma display_after_edit_witness :
  form_values (display (with_field CommitEmail "kutay@example.com" demo_settings))
  = [ "mkutay"; "github.com/mkutay/blog"; "ghp_0123456789"; "blog"; "Kutay";
      "kutay@example.com" ].
Proof.
  exact (proj1 (display_after_edit demo_settings 5 CommitEmail "kutay@example.com"
                  eq_refl)).
Defined.

Lemma reachable_defined (data : option js_object) (edits : list (field * string)) :
  exists s, settings_of_object (plugin_settings (edit_all edits (onload data))) = Some s.
Proof.
  apply canonical_defined, edit_all_canonical. apply merged_canonical.
Qed.

(** X11.  The user name is no part of a sync: after any edits, a click
    runs a sync, and typing another user name into the form first changes
    nothing of what that sync does. *)
Theorem username_is_not_used_by_sync
  (h : host) (data : option js_object) (edits : list (field * string))
  (name : string) :
  exists run,
    trigger h (edit_all edits (onload data)) = Some run
    /\ trigger h (onChange Username name (edit_all edits (onload data))) = Some run.
Proof.
  destruct (reachable_defined data edits) as [s Hs].
  exists (fst (SyncBlog h s)). unfold trigger. split.
  - rewrite Hs. reflexivity.
  - unfold onChange, saveSettings. cbn [plugin_settings].
    rewrite (settings_of_assigned _ Username name s Hs). reflexivity.
Qed.
